(** * kaputt: the tag filter pipeline, its configuration file and its rules

    A shallow embedding of [src/filter.cpp], [src/rules.h], [src/rule.h],
    [utils.h] and of [isLastHostileInRange] from [re.cpp], followed by the
    properties of the selection, expansion, loading and validation code. *)

From Stdlib Require Import QArith.
From Stdlib Require Import Sorted.
From Stdlib Require OrderedTypeEx.
From stdpp Require Import gmap strings list.

Open Scope Z_scope.
Open Scope nat_scope.
Open Scope string_scope.
Open Scope list_scope.

(** ** utils.h: string sets

    filter.cpp calls [merge], [toToml] and [fromToml] as members of [StrSet];
    utils.h has them as the functions [mergeStrSet], [strSet2TomlArray] and
    [tomlArray2StrSet], which are what is embedded here. *)

(** [StrSet] is an unordered set of strings. *)
Abbreviation StrSet := (gset string).

Module StrSetOps.

Definition contains (s : StrSet) (key : string) : bool := bool_decide (key ∈ s).

(** [mergeStrSet(to, from)]: every element of [from] is emplaced in [to]. *)
Definition merge (to_ from_ : StrSet) : StrSet :=
  foldl (fun acc str => {[ str ]} ∪ acc) to_ (elements from_).

(** [std::ranges::all_of] and [std::ranges::none_of] over a set. *)
Definition all_of (s : StrSet) (p : string -> bool) : bool := forallb p (elements s).
Definition none_of (s : StrSet) (p : string -> bool) : bool := negb (existsb p (elements s)).

End StrSetOps.

(** ** filter.h / filter.cpp: selection *)

(** Actors are only ever compared by address here. *)
Definition Actor := nat.

Record TaggerOutput := mkTaggerOutput {
  required_tags : StrSet;
  banned_tags : StrSet
}.

Record TagExpansion := mkTagExpansion {
  from : string;
  to : StrSet
}.

Record AnimEntry := mkAnimEntry {
  getTags : StrSet
}.

(** [anim_dict], in the order the range-for of [pickAnimation] visits it. A
    pointer to an animation of the dictionary is the entry it points into. *)
Definition AnimDict := list (string * AnimEntry).
Definition AnimPtr := (string * AnimEntry)%type.

Module Select.
Import StrSetOps.

(** Body of the inner loop of [pickAnimation] (filter.cpp:69-71). *)
Definition expand_step (orig_tags exp_tags : StrSet) (tagexp : TagExpansion) : StrSet :=
  if contains orig_tags (from tagexp) then merge exp_tags (to tagexp) else exp_tags.

(** filter.cpp:67-72: the expanded tags of one animation. *)
Definition exp_tags_of (tagexp_list : list TagExpansion) (orig_tags : StrSet) : StrSet :=
  let exp_tags := foldl (expand_step orig_tags) ∅ tagexp_list in
  merge exp_tags orig_tags.

(** filter.cpp:74-75: the test that admits an animation. *)
Definition admits (tag_result : TaggerOutput) (exp_tags : StrSet) : bool :=
  all_of (required_tags tag_result) (fun tag => contains exp_tags tag) &&
  none_of (banned_tags tag_result) (fun tag => contains exp_tags tag).

(** filter.cpp:64-77: the outer loop, pushing the admitted animations. *)
Definition filter_anims (tagexp_list : list TagExpansion) (tag_result : TaggerOutput)
    (anim_dict : AnimDict) : list AnimPtr :=
  foldl (fun filtered_anims '(edid, anim) =>
           if admits tag_result (exp_tags_of tagexp_list (getTags anim))
           then filtered_anims ++ [(edid, anim)] else filtered_anims)
        [] anim_dict.

(** The function-local [static std::default_random_engine gen], with two
    counters that record how often it was seeded and how often
    [std::random_device] was read. *)
Record Rng := mkRng {
  gen : Z;
  seed_calls : nat;
  device_reads : nat
}.

(** A default-constructed engine. *)
Definition default_seed : Z := 1%Z.
Definition rng_init : Rng := mkRng default_seed 0 0.

(** [std::call_once(flag, f)]: runs [f] when the flag is not yet set. *)
Definition call_once {S : Type} (flag : bool) (f : S -> S) (s : S) : bool * S :=
  if flag then (flag, s) else (true, f s).

Section WithRandomness.
(** [random_device n]: what the [n]-th read of [std::random_device] gives. *)
Variable random_device : nat -> Z.
(** [unif lo hi g]: a draw of [std::uniform_int_distribution<size_t>(lo, hi)]
    from the engine in state [g], and the engine's next state. *)
Variable unif : nat -> nat -> Z -> nat * Z.

(** What [std::uniform_int_distribution] promises about its result. *)
Definition unif_in_range : Prop :=
  forall (lo hi : nat) (g : Z), lo <= hi -> lo <= (unif lo hi g).1 <= hi.

(** [gen.seed(std::random_device()())] *)
Definition seed_from_device (r : Rng) : Rng :=
  mkRng (random_device (device_reads r)) (S (seed_calls r)) (S (device_reads r)).

(** filter.cpp:79-87, after the filtering. *)
Definition pick_from (filtered_anims : list AnimPtr) (r : Rng) : option AnimPtr * Rng :=
  match filtered_anims with
  | [] => (None, r)
  | _ =>
      let flag := false in
      let '(_, r1) := call_once flag seed_from_device r in
      let '(i, g) := unif 0 (length filtered_anims - 1) (gen r1) in
      (filtered_anims !! i, mkRng g (seed_calls r1) (device_reads r1))
  end.

(** [pickEntry]: selection for a given pool, tag requirement and expansions. *)
Definition pickEntry (anim_dict : AnimDict) (tag_result : TaggerOutput)
    (tagexp_list : list TagExpansion) (r : Rng) : option AnimPtr * Rng :=
  pick_from (filter_anims tagexp_list tag_result anim_dict) r.
End WithRandomness.

(** A linear congruential engine and a draw by remainder, as one instance
    of the randomness the selection is parametrised by. *)
Definition minstd_draw (lo hi : nat) (g : Z) : nat * Z :=
  let g' := (16807 * g `mod` 2147483647)%Z in
  (lo + Z.to_nat (g' `mod` (Z.of_nat (hi - lo) + 1)), g').

End Select.

(** ** Tables keyed by strings

    [toml::table] and the object of [nlohmann::json] both keep their entries
    in a [std::map], ordered by key, one entry per key. *)

Module StdMap.
Section Ops.
Context {V : Type}.

(** [m[key]] as a view, or [find]: nothing when the key is absent. *)
Fixpoint get (m : list (string * V)) (key : string) : option V :=
  match m with
  | [] => None
  | (k, v) :: rest => if String.eqb key k then Some v else get rest key
  end.

Definition keys (m : list (string * V)) : list string := m.*1.

(** [emplace(key, v)]: adds the entry at its place in key order unless
    the key is already there. *)
Fixpoint emplace (key : string) (v : V) (m : list (string * V)) : list (string * V) :=
  match m with
  | [] => [(key, v)]
  | (k, v') :: rest =>
      match String.compare key k with
      | Lt => (key, v) :: m
      | Eq => m
      | Gt => (k, v') :: emplace key v rest
      end
  end.

(** [insert_or_assign(key, v)], also [m[key] = v]. *)
Fixpoint insert_or_assign (key : string) (v : V) (m : list (string * V))
    : list (string * V) :=
  match m with
  | [] => [(key, v)]
  | (k, v') :: rest =>
      match String.compare key k with
      | Lt => (key, v) :: m
      | Eq => (k, v) :: rest
      | Gt => (k, v') :: insert_or_assign key v rest
      end
  end.

(** Construction from an initializer list. *)
Definition of_list (init : list (string * V)) : list (string * V) :=
  foldl (fun m '(k, v) => insert_or_assign k v m) [] init.
End Ops.
End StdMap.

(** ** toml++ values, as far as the configuration code uses them *)

Module Toml.

(** A node of a parsed document. A table keeps its entries ordered by key,
    as the [std::map] inside [toml::table] does. *)
Inductive node :=
| String (s : string)
| Integer (z : Z)
| Float (q : Q)
| Boolean (b : bool)
| Array (elems : list node)
| Table (entries : list (string * node)).

Definition array := list node.
Definition table := list (string * node).

(** The kind of a node ([node::type()]). *)
Inductive node_type := string_t | integer_t | float_t | boolean_t | array_t | table_t.

Definition type (n : node) : node_type :=
  match n with
  | String _ => string_t
  | Integer _ => integer_t
  | Float _ => float_t
  | Boolean _ => boolean_t
  | Array _ => array_t
  | Table _ => table_t
  end.

#[global] Instance node_type_eq_dec : EqDecision node_type.
Proof. solve_decision. Defined.

(** [node_view::as_array()] and its siblings: null unless the view holds a
    node of that kind. *)
Definition as_array (v : option node) : option array :=
  match v with Some (Array a) => Some a | _ => None end.
Definition as_table (v : option node) : option table :=
  match v with Some (Table t) => Some t | _ => None end.
Definition as_string (v : option node) : option string :=
  match v with Some (String s) => Some s | _ => None end.
Definition as_boolean (v : option node) : option bool :=
  match v with Some (Boolean b) => Some b | _ => None end.

End Toml.

(** ** utils.h: string sets and toml arrays *)

Module StrSetToml.

(** [strSet2TomlArray] *)
Definition toToml (set : StrSet) : Toml.array :=
  foldl (fun arr v => arr ++ [Toml.String v]) [] (elements set).

(** [tomlArray2StrSet]: the strings of the array; other nodes are skipped. *)
Definition fromToml (arr : Toml.array) : StrSet :=
  foldl (fun set v => match v with Toml.String s => {[ s ]} ∪ set | _ => set end) ∅ arr.

End StrSetToml.

(** ** Outcomes of code that can throw or run into undefined behaviour *)

Inductive result (A : Type) :=
| Ok (a : A)
| Throw (what : string)     (** a [std::runtime_error] *)
| Undefined.                (** a null pointer is dereferenced *)
Arguments Ok {A} a.
Arguments Throw {A} what.
Arguments Undefined {A}.

#[global] Instance result_ret : MRet result := fun A a => Ok a.
#[global] Instance result_bind : MBind result := fun A B k m =>
  match m with
  | Ok a => k a
  | Throw e => Throw e
  | Undefined => Undefined
  end.

(** [*p] for a pointer that may be null. *)
Definition deref {A : Type} (p : option A) : result A :=
  match p with Some a => Ok a | None => Undefined end.

Definition is_ok {A : Type} (r : result A) : bool :=
  match r with Ok _ => true | _ => false end.
Definition ok_value {A : Type} (r : result A) : option A :=
  match r with Ok a => Some a | _ => None end.

(** Computations over a state that may throw or be undefined; a throw keeps
    the effects made before it. *)
Definition St (S A : Type) : Type := S -> result A * S.

#[global] Instance St_ret {S : Type} : MRet (St S) := fun A a s => (Ok a, s).
#[global] Instance St_bind {S : Type} : MBind (St S) := fun A B k m s =>
  match m s with
  | (Ok a, s') => k a s'
  | (Throw e, s') => (Throw e, s')
  | (Undefined, s') => (Undefined, s')
  end.

Definition throw {S A : Type} (what : string) : St S A := fun s => (Throw what, s).

(** A computation that does not touch the state. *)
Definition lift {S A : Type} (r : result A) : St S A := fun s => (r, s).

(** [try { m } catch (std::runtime_error e) { handler e }] *)
Definition try_catch {S A : Type} (m : St S A) (handler : string -> St S A) : St S A :=
  fun s => match m s with
           | (Throw e, s') => handler e s'
           | other => other
           end.

Definition modify {S : Type} (f : S -> S) : St S unit := fun s => (Ok tt, f s).
Definition gets {S A : Type} (f : S -> A) : St S A := fun s => (Ok (f s), s).

(** A range-for whose body updates a local variable. *)
Fixpoint for_each {S A T : Type} (l : list A) (body : T -> A -> St S T) (t : T) : St S T :=
  match l with
  | [] => mret t
  | x :: rest => t' ← body t x; for_each rest body t'
  end.

(** ** rules.h: rules *)

(** What a concrete rule class fixes by its virtual functions. *)
Record RuleClass := mkRuleClass {
  getName : string;
  getHint : string;
  getDefaultParams : Toml.table
}.

(** A rule object: its class and the [params] member. *)
Record Rule := mkRule {
  cls : RuleClass;
  params : Toml.table
}.

Module Rules.

(** Modelled from the spec: [isSameStructure] is declared in utils.h and its
    body is not among the sources. The spec calls the validation a
    structural-shape check against the default parameters that looks at
    field names and kinds, not at values: both tables have the same keys,
    and under each key values of the same kind. *)
Definition isSameStructure (a b : Toml.table) : bool :=
  forallb (fun '(k, v) =>
             match StdMap.get b k with
             | Some v' => bool_decide (Toml.type v = Toml.type v')
             | None => false
             end) a
  && forallb (fun '(k, _) => bool_decide (is_Some (StdMap.get a k))) b.

(** [Rule::init()] and [Rule::init(p)] *)
Definition init (r : Rule) : Rule := mkRule (cls r) (getDefaultParams (cls r)).
Definition init_with (r : Rule) (p : Toml.table) : Rule := mkRule (cls r) p.

(** [Rule::checkParamsValidity] *)
Definition checkParamsValidity (r : Rule) (p : Toml.table) : bool :=
  isSameStructure p (getDefaultParams (cls r)).

(** [SingleActorRule::getDefaultParams] over the class's other defaults. *)
Definition SingleActorRule_defaults (other : Toml.table) : Toml.table :=
  StdMap.emplace "check_attacker" (Toml.Boolean false) other.

End Rules.

(** ** filter.h / filter.cpp: taggers, the pipeline and its file *)

(** filter.cpp reads [rule->getName()] and [rule->params] and writes
    [tagger.rule->params]: the member [Tagger::rule], declared in filter.h,
    which is not among the sources, is a pointer to a rule object. A pointer
    is the address of a rule object in the store of all rule objects; an
    address that holds no object is a null or dangling pointer. *)
Abbreviation RulePtr := nat.
Abbreviation RuleStore := (gmap nat Rule).

Record Tagger := mkTagger {
  rule : RulePtr;
  comment : string;
  enable_true : bool;
  enable_false : bool;
  true_tags : TaggerOutput;
  false_tags : TaggerOutput
}.

(** What [toml::parse_file] finds at a path: a document, or text it rejects.
    Writing a table and parsing it back is taken to give the table again. *)
Inductive File :=
| TomlFile (tbl : Toml.table)
| Unparsable.

Inductive LogLine :=
| info (msg : string)
| warn (msg : string)
| error (msg : string).

(** The objects the pipeline code reads and writes: the rule objects, the two
    lists of the [FilterPipeline], the file system and the log. *)
Record World := mkWorld {
  rules : RuleStore;
  tagger_list : list Tagger;
  tagexp_list : list TagExpansion;
  files : gmap string File;
  unwritable : gset string;
  log : list LogLine
}.

Definition set_rules (f : RuleStore -> RuleStore) (w : World) : World :=
  mkWorld (f (rules w)) (tagger_list w) (tagexp_list w) (files w) (unwritable w) (log w).
Definition set_tagger_list (f : list Tagger -> list Tagger) (w : World) : World :=
  mkWorld (rules w) (f (tagger_list w)) (tagexp_list w) (files w) (unwritable w) (log w).
Definition set_tagexp_list (f : list TagExpansion -> list TagExpansion) (w : World) : World :=
  mkWorld (rules w) (tagger_list w) (f (tagexp_list w)) (files w) (unwritable w) (log w).
Definition set_files (f : gmap string File -> gmap string File) (w : World) : World :=
  mkWorld (rules w) (tagger_list w) (tagexp_list w) (f (files w)) (unwritable w) (log w).
Definition set_log (f : list LogLine -> list LogLine) (w : World) : World :=
  mkWorld (rules w) (tagger_list w) (tagexp_list w) (files w) (unwritable w) (f (log w)).

(** Computations over the world. *)
Abbreviation M := (St World).

(** A computation over the rule objects, run in the world. *)
Definition on_rules {A : Type} (m : St RuleStore A) : M A :=
  fun w => let '(r, h) := m (rules w) in (r, set_rules (fun _ => h) w).

Definition logger_info (msg : string) : M unit := modify (set_log (fun l => l ++ [info msg])).
Definition logger_warn (msg : string) : M unit := modify (set_log (fun l => l ++ [warn msg])).
Definition logger_error (msg : string) : M unit := modify (set_log (fun l => l ++ [error msg])).

Definition dquote : string := String (Ascii.ascii_of_nat 34) EmptyString.

Module Filter.

(** [*ptr] for a pointer to a rule. *)
Definition rule_at (ptr : RulePtr) : St RuleStore Rule :=
  fun h => (deref (h !! ptr), h).

(** [TaggerOutput::toToml] *)
Definition TaggerOutput_toToml (o : TaggerOutput) : Toml.table :=
  StdMap.of_list [("req_tags", Toml.Array (StrSetToml.toToml (required_tags o)));
                 ("ban_tags", Toml.Array (StrSetToml.toToml (banned_tags o)))].

Definition TaggerOutput_error : string :=
  "Required TaggerOutput field (" ++ dquote ++ "req_tags" ++ dquote ++ " or "
    ++ dquote ++ "ban_tags" ++ dquote ++ ") unfulfilled.".

(** [TaggerOutput::fromToml] (filter.cpp:12-21); both operands of the guard
    read [req_tags]. *)
Definition TaggerOutput_fromToml (tbl : Toml.table) : result TaggerOutput :=
  if negb (bool_decide (is_Some (Toml.as_array (StdMap.get tbl "req_tags")))
           && bool_decide (is_Some (Toml.as_array (StdMap.get tbl "req_tags"))))
  then Throw TaggerOutput_error
  else
    req ← deref (Toml.as_array (StdMap.get tbl "req_tags"));
    let required := StrSetToml.fromToml req in
    ban ← deref (Toml.as_array (StdMap.get tbl "ban_tags"));
    let banned := StrSetToml.fromToml ban in
    mret (mkTaggerOutput required banned).

(** The table that [Tagger::toToml] builds for a tagger whose rule is [r]. *)
Definition Tagger_table (r : Rule) (t : Tagger) : Toml.table :=
  StdMap.of_list
    [("rule", Toml.String (getName (cls r)));
     ("params", Toml.Table (params r));
     ("comment", Toml.String (comment t));
     ("enable_true", Toml.Boolean (enable_true t));
     ("enable_false", Toml.Boolean (enable_false t));
     ("true_tags", Toml.Table (TaggerOutput_toToml (true_tags t)));
     ("false_tags", Toml.Table (TaggerOutput_toToml (false_tags t)))].

(** [Tagger::toToml] (filter.cpp:23-34) *)
Definition Tagger_toToml (t : Tagger) : St RuleStore Toml.table :=
  r ← rule_at (rule t);
  mret (Tagger_table r t).

(** The guard of [Tagger::fromToml] (filter.cpp:38-40). *)
Definition Tagger_fields_present (tbl : Toml.table) : bool :=
  bool_decide (is_Some (Toml.as_string (StdMap.get tbl "rule")))
  && bool_decide (is_Some (Toml.as_table (StdMap.get tbl "params")))
  && bool_decide (is_Some (Toml.as_string (StdMap.get tbl "comment")))
  && bool_decide (is_Some (Toml.as_boolean (StdMap.get tbl "enable_true")))
  && bool_decide (is_Some (Toml.as_boolean (StdMap.get tbl "enable_false")))
  && bool_decide (is_Some (Toml.as_table (StdMap.get tbl "true_tags")))
  && bool_decide (is_Some (Toml.as_table (StdMap.get tbl "false_tags"))).

(** [tagger.rule->params = p] (filter.cpp:48): the object behind the pointer
    keeps its class and gets the parameters. *)
Definition assign_params (ptr : RulePtr) (p : Toml.table) : St RuleStore unit :=
  r ← rule_at ptr;
  modify (fun h : RuleStore => <[ ptr := mkRule (cls r) p ]> h).

(** filter.cpp:50-57: the fields read after the rule is set up. *)
Definition Tagger_fromToml_tail (tbl : Toml.table) (ptr : RulePtr) : result Tagger :=
  tt_tbl ← deref (Toml.as_table (StdMap.get tbl "true_tags"));
  tt ← TaggerOutput_fromToml tt_tbl;
  ft_tbl ← deref (Toml.as_table (StdMap.get tbl "false_tags"));
  ft ← TaggerOutput_fromToml ft_tbl;
  et ← deref (Toml.as_boolean (StdMap.get tbl "enable_true"));
  ef ← deref (Toml.as_boolean (StdMap.get tbl "enable_false"));
  c ← deref (Toml.as_string (StdMap.get tbl "comment"));
  mret (mkTagger ptr c et ef tt ft).

(** Modelled from the spec: [FilterPipeline::clear] is declared in filter.h,
    which is not among the sources; loading without [append] clears the
    existing taggers and expansions first. *)
Definition clear : M unit :=
  _ ← modify (set_tagger_list (fun _ => []));
  modify (set_tagexp_list (fun _ => [])).

(** Body of the loop over the [tagexps] table (filter.cpp:133-144). *)
Definition load_tagexp (all_good : bool) (entry : string * Toml.node) : M bool :=
  let '(from_, v) := entry in
  match Toml.as_array (Some v) with
  | Some to_ =>
      _ ← modify (set_tagexp_list
                    (fun l => l ++ [mkTagExpansion from_ (StrSetToml.fromToml to_)]));
      mret all_good
  | None =>
      _ ← logger_warn "Failed to parse one of the tag expansions. Error: Wrong data type.";
      mret false
  end.

(** [toml::parse_file] *)
Definition parse_file (dir : string) : M (option Toml.table) :=
  gets (fun w => match files w !! dir with
                 | Some (TomlFile tbl) => Some tbl
                 | _ => None
                 end).

Section Lookup.
(** [Rule::getRule] is not among the sources and is a parameter: a static
    function of [Rule] that is given a name and answers a pointer to a rule,
    or throws a [std::runtime_error], or does neither, which is [Undefined]
    here; what it can read and change are the rule objects. *)
Variable getRule : string -> St RuleStore RulePtr.

(** [Tagger::fromToml] (filter.cpp:36-58) *)
Definition Tagger_fromToml (tbl : Toml.table) : St RuleStore Tagger :=
  if negb (Tagger_fields_present tbl)
  then throw "Required Tagger field(s) unfulfilled."
  else
    name ← lift (deref (Toml.as_string (StdMap.get tbl "rule")));
    ptr ← getRule name;
    r ← rule_at ptr;
    p ← lift (deref (Toml.as_table (StdMap.get tbl "params")));
    if negb (Rules.checkParamsValidity r p)
    then throw ("Wrong parameters for rule type " ++ name ++ ".")
    else
      _ ← assign_params ptr p;
      lift (Tagger_fromToml_tail tbl ptr).

(** Body of the loop over the [taggers] array (filter.cpp:110-129). *)
Definition load_tagger (all_good : bool) (v : Toml.node) : M bool :=
  match Toml.as_table (Some v) with
  | Some tagger_tbl =>
      try_catch
        (tagger ← on_rules (Tagger_fromToml tagger_tbl);
         _ ← modify (set_tagger_list (fun l => l ++ [tagger]));
         mret all_good)
        (fun what =>
           _ ← logger_warn ("Failed to parse one of the taggers. Error: " ++ what);
           mret false)
  | None =>
      _ ← logger_warn "Failed to parse one of the taggers. Error: Wrong data type.";
      mret false
  end.

(** [FilterPipeline::loadFile] (filter.cpp:90-152) *)
Definition loadFile (dir : string) (append : bool) : M bool :=
  let all_good := true in
  _ ← (if negb append then clear else mret tt);
  parsed ← parse_file dir;
  match parsed with
  | None =>
      _ ← logger_warn ("Failed to parse filter file " ++ dir ++ ".");
      mret false
  | Some tbl =>
      _ ← logger_info ("Parsing filter file " ++ dir);
      all_good ←
        match Toml.as_array (StdMap.get tbl "taggers") with
        | Some taggers_arr => for_each taggers_arr load_tagger all_good
        | None =>
            _ ← logger_warn ("Required " ++ dquote ++ "taggers" ++ dquote
                             ++ " field unfulfilled. Skipped.");
            mret all_good
        end;
      match Toml.as_table (StdMap.get tbl "tagexps") with
      | Some taggers_tbl => for_each taggers_tbl load_tagexp all_good
      | None =>
          _ ← logger_warn ("Required " ++ dquote ++ "tagexps" ++ dquote
                           ++ " field unfulfilled. Skipped.");
          mret false
      end
  end.

(** What the body of the loop over [taggers] makes of one element of the
    array, over the rule objects there are when the element is reached: the
    tagger it pushes, or what it reports. *)
Definition entry_result (v : Toml.node) : St RuleStore Tagger :=
  match v with
  | Toml.Table tagger_tbl => Tagger_fromToml tagger_tbl
  | _ => throw "Wrong data type."
  end.

(** The same for the elements of an array one after the other, each over the
    rule objects the one before left, and the rule objects after the last. *)
Fixpoint run_entries (arr : list Toml.node) (h : RuleStore)
    : list (result Tagger) * RuleStore :=
  match arr with
  | [] => ([], h)
  | v :: rest =>
      let '(r, h') := entry_result v h in
      let '(rs, h'') := run_entries rest h' in
      (r :: rs, h'')
  end.
End Lookup.

(** [FilterPipeline::saveFile] (filter.cpp:154-175) *)
Definition saveFile (dir : string) : M bool :=
  _ ← logger_info ("Saving filter file " ++ dir ++ ".");
  blocked ← gets (fun w => bool_decide (dir ∈ unwritable w));
  if blocked : bool
  then
    _ ← logger_error ("Failed to write at " ++ dir ++ "!");
    mret false
  else
    taggers ← gets tagger_list;
    taggers_arr ← for_each taggers
                    (fun arr tagger => tbl ← on_rules (Tagger_toToml tagger);
                                       mret (arr ++ [Toml.Table tbl])) [];
    tagexps ← gets tagexp_list;
    let tagexp_tbl :=
      foldl (fun tbl tagexp =>
               StdMap.emplace (from tagexp) (Toml.Array (StrSetToml.toToml (to tagexp))) tbl)
            [] tagexps in
    _ ← modify (set_files (fun fs =>
           <[ dir := TomlFile (StdMap.of_list [("taggers", Toml.Array taggers_arr);
                                              ("tagexps", Toml.Table tagexp_tbl)]) ]> fs));
    mret true.

(** The warning the loop over [taggers] logs for an element it skips. *)
Definition entry_warning (r : result Tagger) : option LogLine :=
  match r with
  | Throw what => Some (warn ("Failed to parse one of the taggers. Error: " ++ what))
  | _ => None
  end.

(** The elements of the [taggers] array of a document, none if the field
    is absent or no array. *)
Definition taggers_of (tbl : Toml.table) : list Toml.node :=
  match Toml.as_array (StdMap.get tbl "taggers") with
  | Some taggers_arr => taggers_arr
  | None => []
  end.

(** A tagger of a pipeline built from a catalog of rule classes: its pointer
    leads to a rule object whose class is the one the catalog has under the
    object's name, with parameters that pass the check of the class. *)
Definition from_catalog (catalog : gmap string RuleClass) (h : RuleStore) (t : Tagger)
    : Prop :=
  exists r, h !! rule t = Some r
            ∧ catalog !! getName (cls r) = Some (cls r)
            ∧ Rules.checkParamsValidity r (params r) = true.

(** Two taggers that amount to the same: they point to rule objects of the
    same class with the same parameters, each in its store, and agree in
    comment, flags and tag sets. *)
Definition same_tagger (h h' : RuleStore) (t t' : Tagger) : Prop :=
  is_Some (h !! rule t)
  ∧ h' !! rule t' = h !! rule t
  ∧ comment t' = comment t
  ∧ enable_true t' = enable_true t
  ∧ enable_false t' = enable_false t
  ∧ true_tags t' = true_tags t
  ∧ false_tags t' = false_tags t.

(** Modelled from the spec: [Rule::getRule] is not among the sources. The
    spec has a tagger bind one rule instance with its parameters, and a
    lookup that reports an absent name as a configuration error the load
    path catches. A lookup of this kind, for a catalog of rule classes:
    the name of a class gives a new rule object of the class with the
    default parameters ([Rule::init()]), at an address not in use; any
    other name throws. *)
Definition getRule_instance (catalog : gmap string RuleClass) (name : string)
    : St RuleStore RulePtr :=
  fun h => match catalog !! name with
           | Some c =>
               let ptr := fresh (dom h) in
               (Ok ptr, <[ ptr := Rules.init (mkRule c []) ]> h)
           | None => (Throw ("No rule type " ++ name ++ "."), h)
           end.

(** Modelled from the spec: the other lookup the spec's words allow, which
    resolves a name to the rule object registered under it, the same object
    at every call. *)
Definition getRule_shared (registry : gmap string RulePtr) (name : string)
    : St RuleStore RulePtr :=
  fun h => match registry !! name with
           | Some ptr => (Ok ptr, h)
           | None => (Throw ("No rule type " ++ name ++ "."), h)
           end.

(** What the round trip asks of the lookup: for the name of a class of the
    catalog it makes a rule object of that class at an address that held
    none, and leaves the other rule objects alone. *)
Definition hands_out_instances (catalog : gmap string RuleClass)
    (getRule : string -> St RuleStore RulePtr) : Prop :=
  forall (name : string) (c : RuleClass) (h : RuleStore),
    catalog !! name = Some c ->
    exists ptr p0, h !! ptr = None ∧ getRule name h = (Ok ptr, <[ ptr := mkRule c p0 ]> h).

Section PickAnimation.
(** [Tagger::tag] is declared in filter.h, which is not among the sources,
    and is a parameter here, as is the randomness. *)
Variable tag : list Tagger -> Actor -> Actor -> TaggerOutput.
Variable random_device : nat -> Z.
Variable unif : nat -> nat -> Z -> nat * Z.

(** [FilterPipeline::pickAnimation] (filter.cpp:60-88) *)
Definition pickAnimation (w : World) (anim_dict : AnimDict) (attacker victim : Actor)
    (r : Select.Rng) : option AnimPtr * Select.Rng :=
  let tag_result := tag (tagger_list w) attacker victim in
  Select.pickEntry random_device unif anim_dict tag_result (tagexp_list w) r.
End PickAnimation.

End Filter.

(** ** rule.h: rules whose parameters are json objects *)

Module Json.

(** A [nlohmann::json] value. *)
Inductive value :=
| null
| boolean (b : bool)
| number_integer (z : Z)
| number_unsigned (n : N)
| number_float (q : Q)
| string_ (s : string)
| array (elems : list value)
| object (members : list (string * value)).

Inductive value_t :=
| null_t | boolean_t | number_integer_t | number_unsigned_t | number_float_t
| string_t | array_t | object_t.

Definition type (j : value) : value_t :=
  match j with
  | null => null_t
  | boolean _ => boolean_t
  | number_integer _ => number_integer_t
  | number_unsigned _ => number_unsigned_t
  | number_float _ => number_float_t
  | string_ _ => string_t
  | array _ => array_t
  | object _ => object_t
  end.

#[global] Instance value_t_eq_dec : EqDecision value_t.
Proof. solve_decision. Defined.

(** [j.at(key)]: [None] stands for the [json::exception] it throws, for a
    value that is no object and for an absent key. *)
Definition at_ (j : value) (key : string) : option value :=
  match j with
  | object members => StdMap.get members key
  | _ => None
  end.

End Json.

Module RuleH.

(** The types of the members of the parameter structs. *)
Inductive field_type := bool_f | float_f | string_f.

Inductive field_value :=
| bool_v (b : bool)
| float_v (q : Q)
| string_v (s : string).

(** [j.get_to(member)]: the conversion of the json library for a [bool], a
    [float] and a [std::string] member; [None] stands for the
    [json::exception] (type_error) it throws otherwise. A [float] member
    takes any number and also a boolean. *)
Definition get_to (t : field_type) (j : Json.value) : option field_value :=
  match t, j with
  | bool_f, Json.boolean b => Some (bool_v b)
  | float_f, Json.number_float q => Some (float_v q)
  | float_f, Json.number_integer z => Some (float_v (inject_Z z))
  | float_f, Json.number_unsigned n => Some (float_v (inject_Z (Z.of_N n)))
  | float_f, Json.boolean b => Some (float_v (if b then 1%Q else 0%Q))
  | string_f, Json.string_ s => Some (string_v s)
  | _, _ => None
  end.

(** The json value a member is written as. *)
Definition to_json_field (v : field_value) : Json.value :=
  match v with
  | bool_v b => Json.boolean b
  | float_v q => Json.number_float q
  | string_v s => Json.string_ s
  end.

Definition type_of (v : field_value) : field_type :=
  match v with bool_v _ => bool_f | float_v _ => float_f | string_v _ => string_f end.

(** A parameter struct: the members that [NLOHMANN_DEFINE_TYPE_NON_INTRUSIVE]
    lists for it, in that order, with their default values. *)
Definition ParamsClass := list (string * field_value).

Definition DummyRuleParams : ParamsClass := [("dummy", bool_v true)].
Definition SingleActorRuleParams : ParamsClass := [("check_attacker", bool_v false)].
Definition UnconditionalRuleParams : ParamsClass := [("value", bool_v true)].
Definition AngleRuleParams : ParamsClass :=
  [("angle_min", float_v (-45)%Q); ("angle_max", float_v 45%Q)].
Definition LastHostileInRangeRuleParams : ParamsClass := [("range", float_v 1024%Q)].
Definition SkeletonRuleParams : ParamsClass :=
  [("check_attacker", bool_v false); ("skeleton", string_v EmptyString)].

(** The generated [to_json]: one assignment [j[name] = member] per member. *)
Definition to_json (obj : ParamsClass) : Json.value :=
  Json.object (foldl (fun m '(name, v) => StdMap.insert_or_assign name (to_json_field v) m)
                     [] obj).

(** The generated [from_json]: [j.at(name).get_to(member)] for each member in
    turn; [None] when one of them throws. *)
Fixpoint from_json (members : ParamsClass) (j : Json.value) : option ParamsClass :=
  match members with
  | [] => Some []
  | (name, dflt) :: rest =>
      match Json.at_ j name with
      | None => None
      | Some jv =>
          match get_to (type_of dflt) jv with
          | None => None
          | Some v =>
              match from_json rest j with
              | None => None
              | Some obj => Some ((name, v) :: obj)
              end
          end
      end
  end.

(** The rule structs of rule.h. *)
Inductive RuleType :=
| UnconditionalRule | PlayableRule | BleedoutRule | RagdollRule | ProtectedRule
| EssentialRule | AngleRule | LastHostileInRangeRule | SkeletonRule.

(** The template argument of [Rule<ParamsClass>] for each rule. *)
Definition params_class (r : RuleType) : ParamsClass :=
  match r with
  | UnconditionalRule => UnconditionalRuleParams
  | PlayableRule | BleedoutRule | RagdollRule | EssentialRule => SingleActorRuleParams
  | ProtectedRule => DummyRuleParams
  | AngleRule => AngleRuleParams
  | LastHostileInRangeRule => LastHostileInRangeRuleParams
  | SkeletonRule => SkeletonRuleParams
  end.

Definition getName (r : RuleType) : string :=
  match r with
  | UnconditionalRule => "Unconditional"
  | PlayableRule => "Animation Playable"
  | BleedoutRule => "Bleedout"
  | RagdollRule => "Ragdoll"
  | ProtectedRule => "Protected"
  | EssentialRule => "Essential"
  | AngleRule => "Relative Angle"
  | LastHostileInRangeRule => "Last Hostile"
  | SkeletonRule => "Skeleton"
  end.

(** [Rule<ParamsClass>::getDefaultParams] (rule.h:32) *)
Definition getDefaultParams (r : RuleType) : Json.value := to_json (params_class r).

(** [Rule<ParamsClass>::checkParams] (rule.h:33-44): the conversion is tried
    and a [json::exception] makes the answer false. *)
Definition checkParams (r : RuleType) (params : Json.value) : bool :=
  match from_json (params_class r) params with
  | Some obj => true
  | None => false
  end.

(** The reading of the validation in the spec: the blob has the field
    structure of the defaults, that is the same keys, and under each key a
    value of the same kind. *)
Definition same_structure (blob dflt : Json.value) : bool :=
  match blob, dflt with
  | Json.object a, Json.object b =>
      forallb (fun '(k, v) =>
                 match StdMap.get b k with
                 | Some v' => bool_decide (Json.type v = Json.type v')
                 | None => false
                 end) a
      && forallb (fun '(k, _) => bool_decide (is_Some (StdMap.get a k))) b
  | _, _ => false
  end.

End RuleH.

(** ** re.cpp: the last hostile actor in range *)

Module Re.

(** An entry of [highActorHandles]: a null handle, a handle whose actor is
    gone, or a handle to an actor. *)
Inductive ActorHandle :=
| handle_null
| handle_stale
| handle_to (a : Actor).

Record ProcessLists := mkProcessLists {
  numberHighActors : nat;
  highActorHandles : list ActorHandle
}.

(** What the function reads from the game. Distances, health and the range
    are finite floats and are taken as rationals. *)
Record Game := mkGame {
  process_lists : option ProcessLists;          (** [ProcessLists::GetSingleton()] *)
  player : option Actor;                        (** [PlayerCharacter::GetSingleton()] *)
  IsPlayerRef : Actor -> bool;
  health : Actor -> Q;                          (** [GetActorValue(kHealth)] *)
  distance : Actor -> Actor -> Q;               (** between the two positions *)
  IsHostileToActor : Actor -> Actor -> bool     (** [a->IsHostileToActor(b)] *)
}.

Definition Qltb (x y : Q) : bool := negb (Qle_bool y x).

(** The loop of re.cpp:85-98: [true] when it reaches [return false]. *)
Fixpoint hostile_among (g : Game) (attacker victim : Actor) (range : Q)
    (handles : list ActorHandle) : bool :=
  match handles with
  | [] => false
  | h :: rest =>
      match h with
      | handle_null | handle_stale => hostile_among g attacker victim range rest
      | handle_to actor =>
          if Nat.eqb actor attacker || Nat.eqb actor victim || Qle_bool (health g actor) 0
          then hostile_among g attacker victim range rest
          else if Qltb (distance g actor attacker) range && IsHostileToActor g actor attacker
               then true
               else hostile_among g attacker victim range rest
      end
  end.

(** The extra check of the player (re.cpp:100-106): [true] when it reaches
    [return false]. *)
Definition hostile_player (g : Game) (attacker victim : Actor) (range : Q) : bool :=
  if negb (IsPlayerRef g attacker) && negb (IsPlayerRef g victim)
  then match player g with
       | Some p => Qltb (distance g p attacker) range && IsHostileToActor g attacker p
       | None => false
       end
  else false.

(** [isLastHostileInRange] (re.cpp:73-109), the test behind the rule
    "Last Hostile" of rule.h. *)
Definition isLastHostileInRange (g : Game) (attacker victim : Actor) (range : Q) : bool :=
  match process_lists g with
  | None => false
  | Some pl =>
      if Nat.eqb (numberHighActors pl) 0 then true
      else if hostile_among g attacker victim range (highActorHandles pl) then false
      else if hostile_player g attacker victim range then false
      else true
  end.

(** The live actors behind the handles. *)
Definition high_actors (g : Game) : list Actor :=
  match process_lists g with
  | None => []
  | Some pl =>
      omap (fun h => match h with handle_to a => Some a | _ => None end)
           (highActorHandles pl)
  end.

(** The reading of the rule in the spec: the victim is a hostile within the
    radius of the attacker, and no other living hostile within the radius is
    nearer to the attacker. *)
Definition hostile_within (g : Game) (attacker : Actor) (range : Q) (a : Actor) : bool :=
  negb (Qle_bool (health g a) 0)
  && Qltb (distance g a attacker) range
  && IsHostileToActor g a attacker.

Definition victim_is_nearest_hostile (g : Game) (attacker victim : Actor) (range : Q) : bool :=
  hostile_within g attacker range victim
  && forallb (fun a => negb (hostile_within g attacker range a)
                       || Nat.eqb a attacker
                       || Qle_bool (distance g victim attacker) (distance g a attacker))
             (high_actors g).

End Re.

(** ** filter.cpp: readings of a document used to state what a load does *)

Module Loading.

(** The element of [tagexp_list] that the loop over [tagexps] pushes for an
    entry of the table (filter.cpp:135-138), if it pushes one. *)
Definition tagexp_of_entry (entry : string * Toml.node) : option TagExpansion :=
  match Toml.as_array (Some entry.2) with
  | Some to_ => Some (mkTagExpansion entry.1 (StrSetToml.fromToml to_))
  | None => None
  end.

(** The entries of the [tagexps] table of a document, none if the field is
    absent or no table. *)
Definition tagexps_of (tbl : Toml.table) : list (string * Toml.node) :=
  match Toml.as_table (StdMap.get tbl "tagexps") with
  | Some entries => entries
  | None => []
  end.

(** The [tagexps] field is a table and all its values are arrays. *)
Definition tagexps_ok (tbl : Toml.table) : bool :=
  match Toml.as_table (StdMap.get tbl "tagexps") with
  | Some entries => forallb (fun e => bool_decide (is_Some (tagexp_of_entry e))) entries
  | None => false
  end.

(** A tag table is safe to read when [ban_tags] is an array wherever
    [req_tags] is one. *)
Definition tags_table_checked (view : option Toml.node) : bool :=
  match Toml.as_table view with
  | Some t =>
      implb (bool_decide (is_Some (Toml.as_array (StdMap.get t "req_tags"))))
            (bool_decide (is_Some (Toml.as_array (StdMap.get t "ban_tags"))))
  | None => true
  end.

(** Both tag tables of a tagger record are safe to read. *)
Definition ban_tags_checked (v : Toml.node) : bool :=
  match v with
  | Toml.Table tbl =>
      tags_table_checked (StdMap.get tbl "true_tags")
      && tags_table_checked (StdMap.get tbl "false_tags")
  | _ => true
  end.

End Loading.

(** ** rule.h: evaluation of the rules and [RuleInfo] *)

Module RuleEval.
Import RuleH.

(** What the rules defined in rule.h ask about an actor. [isBleedout] and
    [isInPairedAnimation] are functions of re.cpp that ask the game. *)
Record Host := mkHost {
  Is3DLoaded : Actor -> bool;
  IsDead : Actor -> bool;
  isInPairedAnimation : Actor -> bool;
  IsOnMount : Actor -> bool;
  isBleedout : Actor -> bool;
  IsInRagdollState : Actor -> bool;
  IsPlayerRef : Actor -> bool;
  kProtected : Actor -> bool;     (** [boolFlags.all(kProtected)] *)
  kEssential : Actor -> bool      (** [boolFlags.all(kEssential)] *)
}.

(** A [bool] member of a parameter struct. *)
Definition member_bool (params : ParamsClass) (name : string) : bool :=
  match StdMap.get params name with
  | Some (bool_v b) => b
  | _ => false
  end.

Section Check.
Variable h : Host.
(** The bodies of [AngleRule::check], [LastHostileInRangeRule::check] and
    [SkeletonRule::check] are not in rule.h; they are a parameter. *)
Variable check_elsewhere : RuleType -> ParamsClass -> Actor -> Actor -> bool.

(** [UnconditionalRule::check] (rule.h:86) *)
Definition UnconditionalRule_check (params : ParamsClass) (attacker victim : Actor) : bool :=
  member_bool params "value".

(** [PlayableRule::check] (rule.h:93-97) *)
Definition PlayableRule_check (params : ParamsClass) (attacker victim : Actor) : bool :=
  let actor := if member_bool params "check_attacker" then attacker else victim in
  Is3DLoaded h actor && negb (IsDead h actor) && negb (isInPairedAnimation h actor)
  && negb (IsOnMount h actor).

(** [BleedoutRule::check] (rule.h:103-106) *)
Definition BleedoutRule_check (params : ParamsClass) (attacker victim : Actor) : bool :=
  isBleedout h (if member_bool params "check_attacker" then attacker else victim).

(** [RagdollRule::check] (rule.h:112-115) *)
Definition RagdollRule_check (params : ParamsClass) (attacker victim : Actor) : bool :=
  IsInRagdollState h (if member_bool params "check_attacker" then attacker else victim).

(** [ProtectedRule::check] (rule.h:121-124) *)
Definition ProtectedRule_check (params : ParamsClass) (attacker victim : Actor) : bool :=
  negb (IsPlayerRef h attacker) && kProtected h victim.

(** [EssentialRule::check] (rule.h:130-133) *)
Definition EssentialRule_check (params : ParamsClass) (attacker victim : Actor) : bool :=
  kEssential h (if member_bool params "check_attacker" then attacker else victim).

(** The virtual [check] on the typed parameters. *)
Definition check (r : RuleType) (params : ParamsClass) (attacker victim : Actor) : bool :=
  match r with
  | UnconditionalRule => UnconditionalRule_check params attacker victim
  | PlayableRule => PlayableRule_check params attacker victim
  | BleedoutRule => BleedoutRule_check params attacker victim
  | RagdollRule => RagdollRule_check params attacker victim
  | ProtectedRule => ProtectedRule_check params attacker victim
  | EssentialRule => EssentialRule_check params attacker victim
  | AngleRule | LastHostileInRangeRule | SkeletonRule =>
      check_elsewhere r params attacker victim
  end.

(** [Rule<ParamsClass>::check(const json&, ...)] (rule.h:53-57): the blob is
    converted and the typed [check] is called; [None] stands for the
    [json::exception] of a failed conversion. *)
Definition check_json (r : RuleType) (params : Json.value) (attacker victim : Actor)
    : option bool :=
  match from_json (params_class r) params with
  | Some obj => Some (check r obj attacker victim)
  | None => None
  end.

(** [RuleInfo] (rule.h:175-199) *)
Record RuleInfo := mkRuleInfo {
  enabled : bool;
  need_true : bool;
  type : string;
  comment : string;
  params : Json.value
}.

(** [getRule()] is declared in rule.h; the map it returns is a parameter. *)
Variable getRule : gmap string RuleType.

(** [RuleInfo::RuleInfo(std::string_view type)] (rule.h:185-193) *)
Definition RuleInfo_of (type : string) : RuleInfo :=
  match getRule !! type with
  | None => mkRuleInfo false true type EmptyString Json.null
  | Some r => mkRuleInfo true true type EmptyString (getDefaultParams r)
  end.

(** What [RuleInfo::check] can throw: [at] for a type that is not in the
    map, or the conversion of the blob. *)
Inductive exception := out_of_range | json_exception.

(** [RuleInfo::check] (rule.h:196) *)
Definition RuleInfo_check (info : RuleInfo) (attacker victim : Actor) : exception + bool :=
  match getRule !! type info with
  | None => inl out_of_range
  | Some r =>
      match check_json r (params info) attacker victim with
      | Some b => inr b
      | None => inl json_exception
      end
  end.
End Check.

End RuleEval.

(** ** menu.cpp: editing the tag expansions *)

Module Menu.

(** In the menu [tagexp_list] is a map from a tag to the set it expands to. *)
Abbreviation TagExpMap := (gmap string StrSet).

(** The button "Add" (menu.cpp:559-560): [try_emplace("from", StrSet{"to"})]. *)
Definition add_tagexp (tagexp_list : TagExpMap) : TagExpMap :=
  match tagexp_list !! "from" with
  | Some _ => tagexp_list
  | None => <[ "from" := {[ "to" ]} ]> tagexp_list
  end.

Definition empty (s : string) : bool :=
  match s with EmptyString => true | _ => false end.

(** The block after the loop over the expansions (menu.cpp:602-612), for the
    key [swap_from] that was edited and the text [swap_to] that was entered.
    Taking the key of the node handle is undefined when [extract] found no
    entry. *)
Definition apply_swap (swap_from swap_to : string) (tagexp_list : TagExpMap)
    : result TagExpMap :=
  if negb (empty swap_from) && negb (bool_decide (is_Some (tagexp_list !! swap_to)))
  then
    if empty swap_to
    then Ok (delete swap_from tagexp_list)
    else
      match tagexp_list !! swap_from with
      | Some node => Ok (<[ swap_to := node ]> (delete swap_from tagexp_list))
      | None => Undefined
      end
  else Ok tagexp_list.

End Menu.

(** ** re.cpp: the nearest actor, skeletons, equipment *)

Module ReMore.
Import Re.

(** The loop of [getNearestNPC] (re.cpp:127-143), with the two locals
    [min_dist] and [min_actor]. *)
Fixpoint nearest_scan (g : Game) (origin : Actor) (handles : list ActorHandle)
    (min_dist : Q) (min_actor : option Actor) : option Actor :=
  match handles with
  | [] => min_actor
  | h :: rest =>
      match h with
      | handle_null | handle_stale => nearest_scan g origin rest min_dist min_actor
      | handle_to actor =>
          if Nat.eqb actor origin
          then nearest_scan g origin rest min_dist min_actor
          else
            let dist := distance g actor origin in
            if Qltb dist min_dist
            then nearest_scan g origin rest dist (Some actor)
            else nearest_scan g origin rest min_dist min_actor
      end
  end.

(** [getNearestNPC] (re.cpp:111-148) *)
Definition getNearestNPC (g : Game) (origin : Actor) (max_range : Q) : option Actor :=
  match process_lists g with
  | None => None
  | Some pl =>
      if Nat.eqb (numberHighActors pl) 0 then None
      else nearest_scan g origin (highActorHandles pl) max_range None
  end.

(** [tolower] in the C locale, which is what [stricmp] applies to each
    character. *)
Definition tolower (c : Ascii.ascii) : Ascii.ascii :=
  let n := Ascii.nat_of_ascii c in
  if Nat.leb 65 n && Nat.leb n 90 then Ascii.ascii_of_nat (n + 32) else c.

(** [stricmp]: zero when the strings agree up to the case of letters, else
    the difference of the first two characters that differ. *)
Fixpoint stricmp (a b : string) : Z :=
  match a, b with
  | EmptyString, EmptyString => 0%Z
  | EmptyString, String d _ => (0 - Z.of_nat (Ascii.nat_of_ascii (tolower d)))%Z
  | String c _, EmptyString => Z.of_nat (Ascii.nat_of_ascii (tolower c))
  | String c a', String d b' =>
      if Ascii.eqb (tolower c) (tolower d) then stricmp a' b'
      else (Z.of_nat (Ascii.nat_of_ascii (tolower c)) - Z.of_nat (Ascii.nat_of_ascii (tolower d)))%Z
  end.

(** A string with its letters in lower case. *)
Fixpoint lower (a : string) : string :=
  match a with
  | EmptyString => EmptyString
  | String c a' => String (tolower c) (lower a')
  end.

(** The chain of comparisons of [getSkeletonRace] (re.cpp:178-224), one row
    per line: the model path compared with and the name returned. *)
Definition skeleton_table : list (string * string) :=
  [
   ("Actors\Character\Character Assets\skeleton.nif", "human");
   ("actors\Character\Character Assets Female\skeleton_female.nif", "human");
   ("Actors\DLC02\DwarvenBallistaCenturion\Character Assets\skeleton.nif", "ballista");
   ("Actors\Bear\Character Assets\skeleton.nif", "bear");
   ("Actors\DLC02\BoarRiekling\Character Assets\SkeletonBoar.nif", "boar");
   ("Actors\DwarvenSteamCenturion\Character Assets\skeleton.nif", "centurion");
   ("Actors\DLC01\ChaurusFlyer\Character Assets\skeleton.nif", "chaurushunter");
   ("Actors\Dragon\Character Assets\Skeleton.nif", "dragon");
   ("Actors\Draugr\Character Assets\Skeleton.nif", "draugr");
   ("Actors\Draugr\Character Assets\SkeletonF.nif", "draugr");
   ("Actors\Falmer\Character Assets\Skeleton.nif", "falmer");
   ("Actors\DLC01\VampireBrute\Character Assets\skeleton.nif", "gargoyle");
   ("Actors\Giant\Character Assets\skeleton.nif", "giant");
   ("Actors\Hagraven\Character Assets\skeleton.nif", "hagraven");
   ("Actors\DLC02\BenthicLurker\Character Assets\skeleton.nif", "lurker");
   ("Actors\DLC02\Riekling\Character Assets\skeleton.nif", "riekling");
   ("Actors\SabreCat\Character Assets\Skeleton.nif", "sabrecat");
   ("Actors\DLC02\Scrib\Character Assets\skeleton.nif", "ashhopper");
   ("Actors\FrostbiteSpider\Character Assets\skeleton.nif", "spider");
   ("Actors\Spriggan\Character Assets\skeleton.nif", "spriggan");
   ("Actors\Troll\Character Assets\skeleton.nif", "troll");
   ("Actors\Canine\Character Assets Wolf\skeleton.nif", "wolf");
   ("Actors\WerewolfBeast\Character Assets\skeleton.nif", "werewolf");
   ("Actors\VampireLord\Character Assets\Skeleton.nif", "vamplord");
   ("Actors\Chaurus\Character Assets\skeleton.nif", "chaurus");
   ("Actors\Deer\Character Assets\Skeleton.nif", "deer");
   ("Actors\Canine\Character Assets Dog\skeleton.nif", "dog");
   ("Actors\DragonPriest\Character Assets\skeleton.nif", "priest");
   ("Actors\DwarvenSphereCenturion\Character Assets\skeleton.nif", "sphere");
   ("Actors\DwarvenSpider\Character Assets\skeleton.nif", "dwarvenspider");
   ("Actors\AtronachFlame\Character Assets\skeleton.nif", "flameatronach");
   ("Actors\AtronachFrost\Character Assets\skeleton.nif", "frostatronach");
   ("Actors\AtronachStorm\Character Assets\skeleton.nif", "stormatronach");
   ("Actors\Goat\Character Assets\skeleton.nif", "goat");
   ("Actors\Horker\Character Assets\skeleton.nif", "horker");
   ("Actors\Horse\Character Assets\skeleton.nif", "horse");
   ("Actors\IceWraith\Character Assets\skeleton.nif", "wraith");
   ("Actors\Mammoth\Character Assets\skeleton.nif", "mammoth");
   ("Actors\Skeever\Character Assets\skeleton.nif", "skeever");
   ("Actors\Slaughterfish\Character Assets\skeleton.nif", "slaughterfish");
   ("Actors\Wisp\Character Assets\skeleton.nif", "wisp");
   ("Actors\Witchlight\Character Assets\skeleton.nif", "witchlight");
   ("Actors\Cow\Character Assets\skeleton.nif", "cow");
   ("Actors\Ambient\Hare\Character Assets\skeleton.nif", "rabbit");
   ("Actors\Mudcrab\Character Assets\skeleton.nif", "mudcrab");
   ("Actors\DLC02\HMDaedra\Character Assets\Skeleton.nif", "seeker");
   ("Actors\DLC02\Netch\CharacterAssets\skeleton.nif", "netch")
  ].

(** [getSkeletonRace] (re.cpp:175-226), as a function of the model path of
    the actor's skeleton: the name of the first row that matches, else the
    empty string. *)
Fixpoint first_match (skel : string) (rows : list (string * string)) : string :=
  match rows with
  | [] => EmptyString
  | (path, race) :: rest =>
      if Z.eqb (stricmp skel path) 0 then race else first_match skel rest
  end.

Definition getSkeletonRace (skel : string) : string := first_match skel skeleton_table.

(** The weapon types of the game's [WEAPON_TYPE]. *)
Inductive WEAPON_TYPE :=
| kHandToHandMelee | kOneHandSword | kOneHandDagger | kOneHandAxe | kOneHandMace
| kTwoHandSword | kTwoHandAxe | kBow | kStaff | kCrossbow.

(** An equipped object, as far as the two functions look at it: a weapon
    with its type and its keyword test, a light, a spell, or something else. *)
Inductive Form :=
| Weapon (type : WEAPON_TYPE) (HasKeywordString : string -> bool)
| Light
| Spell
| OtherForm.

(** What the two functions read from the actor. *)
Record Equipped := mkEquipped {
  left_hand : option Form;        (** [GetEquippedObject(true)] *)
  right_hand : option Form;       (** [GetEquippedObject(false)] *)
  shield : bool;                  (** [_getEquippedShield(actor) != nullptr] *)
  has_decap_1h_perk : bool;       (** [HasPerk(decap_1h_perk)] *)
  has_decap_2h_perk : bool        (** [HasPerk(decap_2h_perk)] *)
}.

Definition GetEquippedObject (e : Equipped) (is_left : bool) : option Form :=
  if is_left then left_hand e else right_hand e.

(** The end of [getEquippedTag] (re.cpp:269-272), reached when no branch
    above has returned. *)
Definition shield_or_fist (e : Equipped) (is_left : bool) (lr_suffix : string) : string :=
  if is_left && shield e then "shield" else "fist" ++ lr_suffix.

(** [getEquippedTag] (re.cpp:228-273) *)
Definition getEquippedTag (e : Equipped) (is_left : bool) : string :=
  let lr_suffix := if is_left then "_l" else "_r" in
  match GetEquippedObject e is_left with
  | Some (Weapon type HasKeywordString) =>
      match type with
      | kOneHandDagger => "dagger" ++ lr_suffix
      | kOneHandSword => "sword" ++ lr_suffix
      | kOneHandAxe => "axe" ++ lr_suffix
      | kOneHandMace => "mace" ++ lr_suffix
      | kStaff => "staff" ++ lr_suffix
      | kBow => "bow"
      | kCrossbow => "crossbow"
      | kTwoHandSword => "sword2h"
      | _ =>
          if HasKeywordString "WeapTypeBattleaxe" then "axe2h"
          else if HasKeywordString "WeapTypeWarhammer" then "mace2h"
          else shield_or_fist e is_left lr_suffix
      end
  | Some Light => "torch"
  | Some Spell => "spell" ++ lr_suffix
  | Some OtherForm => shield_or_fist e is_left lr_suffix
  | None => shield_or_fist e is_left lr_suffix
  end.

(** [canDecap] (re.cpp:275-300) *)
Definition canDecap (e : Equipped) : bool :=
  let item := match GetEquippedObject e true with
              | Some i => Some i
              | None => GetEquippedObject e false
              end in
  match item with
  | None => false
  | Some (Weapon type _) =>
      match type with
      | kOneHandDagger | kOneHandSword | kOneHandAxe | kOneHandMace => has_decap_1h_perk e
      | kTwoHandSword | kTwoHandAxe => has_decap_2h_perk e
      | _ => false
      end
  | Some _ => false
  end.

End ReMore.

(** ** Sample inputs *)

Module Samples.

(** Actor 1 is the player and attacks actor 2, one unit away; actor 3 is
    five units away; both are alive and hostile to the player. In the second
    game actor 2 is neither hostile nor in range, and alone. *)
Definition two_hostiles : Re.Game :=
  Re.mkGame (Some (Re.mkProcessLists 3 [Re.handle_to 1; Re.handle_to 2; Re.handle_to 3])) (Some 1)
         (fun a => Nat.eqb a 1) (fun _ => 100%Q)
         (fun a b => match a with 2 => 1%Q | 3 => 5%Q | _ => 0%Q end)
         (fun a b => Nat.eqb b 1 && negb (Nat.eqb a 1)).

Definition lone_bystander : Re.Game :=
  Re.mkGame (Some (Re.mkProcessLists 2 [Re.handle_to 1; Re.handle_to 2])) (Some 1)
         (fun a => Nat.eqb a 1) (fun _ => 100%Q)
         (fun a b => match a with 2 => 5000%Q | _ => 0%Q end)
         (fun a b => false).

(** Two rule classes for the samples: a rule about one actor that has no
    parameter of its own, and a rule with two angles. *)
Definition flag_class : RuleClass :=
  mkRuleClass "Flag" "True if the actor is flagged." (Rules.SingleActorRule_defaults []).
Definition range_class : RuleClass :=
  mkRuleClass "Range" "True if the angle is in the range."
              [("angle_max", Toml.Float 45%Q); ("angle_min", Toml.Float (-45)%Q)].

(** The catalog of the two classes, a rule object of each with its default
    parameters, and the registry of these two objects. *)
Definition catalog0 : gmap string RuleClass :=
  {[ "Flag" := flag_class; "Range" := range_class ]}.
Definition store0 : RuleStore :=
  {[ 1 := Rules.init (mkRule flag_class []); 2 := Rules.init (mkRule range_class []) ]}.
Definition registry0 : gmap string RulePtr := {[ "Flag" := 1; "Range" := 2 ]}.

(** A tagger record for rule [r] with [check_attacker] set to [ca]. *)
Definition tagger_fields (r : string) (ca : bool) : Toml.table :=
  StdMap.of_list
    [("rule", Toml.String r);
     ("params", Toml.Table [("check_attacker", Toml.Boolean ca)]);
     ("comment", Toml.String "sample");
     ("enable_true", Toml.Boolean true);
     ("enable_false", Toml.Boolean false);
     ("true_tags", Toml.Table [("ban_tags", Toml.Array []);
                               ("req_tags", Toml.Array [Toml.String "a"])]);
     ("false_tags", Toml.Table [("ban_tags", Toml.Array []);
                                ("req_tags", Toml.Array [])])].

Definition tagger_record (r : string) (ca : bool) : Toml.node :=
  Toml.Table (tagger_fields r ca).

(** A tagger record whose [params] do not have the shape of the defaults. *)
Definition misshaped_record : Toml.node :=
  Toml.Table (StdMap.of_list
    [("rule", Toml.String "Flag");
     ("params", Toml.Table [("check_victim", Toml.Boolean true)]);
     ("comment", Toml.String "sample");
     ("enable_true", Toml.Boolean true);
     ("enable_false", Toml.Boolean false);
     ("true_tags", Toml.Table [("ban_tags", Toml.Array []); ("req_tags", Toml.Array [])]);
     ("false_tags", Toml.Table [("ban_tags", Toml.Array []); ("req_tags", Toml.Array [])])]).

(** A tagger record with every field of the right kind and the default
    parameters, whose [true_tags] table has [req_tags] and no [ban_tags]. *)
Definition unchecked_record : Toml.node :=
  Toml.Table (StdMap.of_list
    [("rule", Toml.String "Flag");
     ("params", Toml.Table [("check_attacker", Toml.Boolean false)]);
     ("comment", Toml.String "sample");
     ("enable_true", Toml.Boolean true);
     ("enable_false", Toml.Boolean false);
     ("true_tags", Toml.Table [("req_tags", Toml.Array [Toml.String "a"])]);
     ("false_tags", Toml.Table [("ban_tags", Toml.Array []); ("req_tags", Toml.Array [])])]).

(** Files: one with an unregistered rule and a misshaped record between two
    good records; the same with the unchecked record after the two bad ones;
    one without [tagexps]; one without [tagexps] whose only record is the
    unchecked one; one with a single record that sets [check_attacker]. *)
Definition mixed_doc : Toml.table :=
  StdMap.of_list
    [("taggers", Toml.Array [tagger_record "Flag" true; tagger_record "Nope" false;
                             misshaped_record; tagger_record "Flag" false]);
     ("tagexps", Toml.Table [("a", Toml.Array [Toml.String "x"])])].

Definition unchecked_doc : Toml.table :=
  StdMap.of_list
    [("taggers", Toml.Array [tagger_record "Flag" true; tagger_record "Nope" false;
                             misshaped_record; unchecked_record;
                             tagger_record "Flag" false]);
     ("tagexps", Toml.Table [("a", Toml.Array [Toml.String "x"])])].

Definition no_tagexps_doc : Toml.table :=
  StdMap.of_list [("taggers", Toml.Array [tagger_record "Flag" false])].

Definition unchecked_no_tagexps_doc : Toml.table :=
  StdMap.of_list [("taggers", Toml.Array [unchecked_record])].

Definition one_tagger_doc : Toml.table :=
  StdMap.of_list
    [("taggers", Toml.Array [tagger_record "Flag" true]);
     ("tagexps", Toml.Table [])].

(** Two files that each expand the tag a, to x and to y. *)
Definition expand_to (target : string) : Toml.table :=
  StdMap.of_list
    [("taggers", Toml.Array []);
     ("tagexps", Toml.Table [("a", Toml.Array [Toml.String target])])].

Definition world0 : World :=
  mkWorld store0 [] []
          {[ "mixed.toml" := TomlFile mixed_doc;
             "unchecked.toml" := TomlFile unchecked_doc;
             "no_tagexps.toml" := TomlFile no_tagexps_doc;
             "unchecked_no_tagexps.toml" := TomlFile unchecked_no_tagexps_doc;
             "one_tagger.toml" := TomlFile one_tagger_doc;
             "x.toml" := TomlFile (expand_to "x");
             "y.toml" := TomlFile (expand_to "y") ]}
          ∅ [].

(** A pipeline with two expansions of the same tag and no tagger. *)
Definition world_two_expansions : World :=
  mkWorld store0 []
          [mkTagExpansion "a" {[ "x" ]}; mkTagExpansion "a" {[ "y" ]}]
          ∅ ∅ [].

(** A pipeline with three taggers, two of them of one class with different
    parameters, each with a rule object of its own, and two expansions of
    different tags. *)
Definition store_pipeline : RuleStore :=
  {[ 1 := Rules.init (mkRule flag_class []);
     2 := Rules.init (mkRule range_class []);
     3 := mkRule flag_class [("check_attacker", Toml.Boolean false)];
     4 := mkRule flag_class [("check_attacker", Toml.Boolean true)];
     5 := mkRule range_class [("angle_max", Toml.Float 90%Q); ("angle_min", Toml.Float 0%Q)] ]}.

Definition world_pipeline : World :=
  mkWorld store_pipeline
          [mkTagger 3 "victim" true false
                    (mkTaggerOutput {[ "a" ]} ∅) (mkTaggerOutput ∅ {[ "b" ]});
           mkTagger 4 "attacker" true true
                    (mkTaggerOutput {[ "c" ]} ∅) (mkTaggerOutput ∅ ∅);
           mkTagger 5 "front" false true
                    (mkTaggerOutput ∅ ∅) (mkTaggerOutput {[ "back" ]} {[ "a"; "c" ]})]
          [mkTagExpansion "b" {[ "y" ]}; mkTagExpansion "a" {[ "x" ]}]
          ∅ ∅ [].

End Samples.

(** ** More sample inputs *)

Module MoreSamples.

(** A document without [taggers] whose expansions are all arrays. *)
Definition only_tagexps_doc : Toml.table :=
  StdMap.of_list
    [("tagexps", Toml.Table [("a", Toml.Array [Toml.String "x"; Toml.Integer 3]);
                            ("b", Toml.Array [])])].

(** A world with one parseable file, one file that is no toml, one path that
    cannot be written, and a pipeline that is not empty. *)
Definition world1 : World :=
  mkWorld Samples.store0
          [mkTagger 1 "kept" true false
                    (mkTaggerOutput {[ "a" ]} ∅) (mkTaggerOutput ∅ ∅)]
          [mkTagExpansion "k" {[ "z" ]}]
          {[ "only_tagexps.toml" := TomlFile only_tagexps_doc;
             "mixed.toml" := TomlFile Samples.mixed_doc;
             "garbage.toml" := Unparsable ]}
          {[ "readonly.toml" ]} [].

End MoreSamples.

(** ** Sample inputs for the rules and the menu *)

Module RuleSamples.

(** Actor 2 is dead and everything else is in order; actor 1 is the player. *)
Definition host0 : RuleEval.Host :=
  RuleEval.mkHost (fun _ => true) (fun a => Nat.eqb a 2) (fun _ => false) (fun _ => false)
                  (fun a => Nat.eqb a 2) (fun _ => false) (fun a => Nat.eqb a 1)
                  (fun _ => false) (fun _ => false).

(** Two expansions in the menu. *)
Definition tagexps0 : Menu.TagExpMap :=
  {[ "from" := {[ "to" ]}; "sneak" := {[ "back"; "quiet" ]} ]}.

End RuleSamples.


(* ================================================================== *)
(** * Properties *)

Section StrSetFacts.
Import StrSetOps.

Lemma merge_union (a b : StrSet) : merge a b = a ∪ b.
Proof.
  unfold merge.
  assert (G : forall (l : list string) (acc : StrSet),
             foldl (fun acc str => {[ str ]} ∪ acc) acc l = acc ∪ list_to_set l).
  { induction l as [|x l IH]; intros acc; simpl.
    - set_solver.
    - rewrite IH. set_solver. }
  rewrite G. rewrite list_to_set_elements_L. reflexivity.
Qed.

Lemma contains_true (s : StrSet) (k : string) : contains s k = true <-> k ∈ s.
Proof. unfold contains. apply bool_decide_eq_true. Qed.

Lemma all_of_spec (s : StrSet) (p : string -> bool) :
  all_of s p = true <-> forall t, t ∈ s -> p t = true.
Proof.
  unfold all_of. rewrite forallb_forall. split; intros H t Ht.
  - apply H. apply list_elem_of_In. apply elem_of_elements. exact Ht.
  - apply H. apply elem_of_elements. apply list_elem_of_In. exact Ht.
Qed.

Lemma none_of_spec (s : StrSet) (p : string -> bool) :
  none_of s p = true <-> forall t, t ∈ s -> p t = false.
Proof.
  unfold none_of. rewrite negb_true_iff. split.
  - intros H t Ht. destruct (p t) eqn:E; [|reflexivity].
    assert (existsb p (elements s) = true) as X; [|congruence].
    apply existsb_exists. exists t. split; [|exact E].
    apply list_elem_of_In. apply elem_of_elements. exact Ht.
  - intros H. destruct (existsb p (elements s)) eqn:E; [|reflexivity].
    apply existsb_exists in E as (t & Ht & Hp).
    apply list_elem_of_In, elem_of_elements in Ht. rewrite (H t Ht) in Hp. discriminate.
Qed.
End StrSetFacts.

Section SelectFacts.
Import StrSetOps Select.

Lemma expand_loop (orig_tags : StrSet) (l : list TagExpansion) (acc : StrSet) :
  foldl (expand_step orig_tags) acc l
  = acc ∪ ⋃ (to <$> filter (fun e => from e ∈ orig_tags) l).
Proof.
  revert acc. induction l as [|e l IH]; intros acc; simpl.
  - set_solver.
  - rewrite IH. unfold expand_step, contains.
    rewrite filter_cons. case_bool_decide as Hin.
    + rewrite decide_True by exact Hin. rewrite merge_union. simpl. set_solver.
    + rewrite decide_False by exact Hin. reflexivity.
Qed.

Lemma exp_tags_of_eq (tagexp_list : list TagExpansion) (A : StrSet) :
  exp_tags_of tagexp_list A
  = A ∪ ⋃ (to <$> filter (fun e => from e ∈ A) tagexp_list).
Proof.
  unfold exp_tags_of. rewrite merge_union, expand_loop. set_solver.
Qed.

Lemma admits_spec (tag_result : TaggerOutput) (exp_tags : StrSet) :
  admits tag_result exp_tags = true
  <-> required_tags tag_result ⊆ exp_tags ∧ banned_tags tag_result ## exp_tags.
Proof.
  unfold admits. rewrite andb_true_iff, all_of_spec, none_of_spec.
  split; intros [H1 H2]; split.
  - intros t Ht. apply contains_true. auto.
  - intros t Ht Ht'. specialize (H2 t Ht). apply contains_true in Ht'. congruence.
  - intros t Ht. apply contains_true. auto.
  - intros t Ht. destruct (contains exp_tags t) eqn:E; [|reflexivity].
    apply contains_true in E. exfalso. exact (H2 t Ht E).
Qed.

Lemma filter_anims_loop (tagexp_list : list TagExpansion) (tag_result : TaggerOutput)
    (l : AnimDict) (acc : list AnimPtr) :
  foldl (fun filtered_anims '(edid, anim) =>
           if admits tag_result (exp_tags_of tagexp_list (getTags anim))
           then filtered_anims ++ [(edid, anim)] else filtered_anims) acc l
  = acc ++ List.filter (fun p => admits tag_result (exp_tags_of tagexp_list (getTags p.2))) l.
Proof.
  revert acc. induction l as [|[edid anim] l IH]; intros acc; simpl.
  - by rewrite app_nil_r.
  - rewrite IH. destruct (admits _ _); [by rewrite <- app_assoc | done].
Qed.

Lemma filter_anims_eq (tagexp_list : list TagExpansion) (tag_result : TaggerOutput)
    (anim_dict : AnimDict) :
  filter_anims tagexp_list tag_result anim_dict
  = List.filter (fun p => admits tag_result (exp_tags_of tagexp_list (getTags p.2)))
                anim_dict.
Proof. unfold filter_anims. by rewrite filter_anims_loop. Qed.

Lemma elem_of_filter_anims (tagexp_list : list TagExpansion) (tag_result : TaggerOutput)
    (anim_dict : AnimDict) (p : AnimPtr) :
  p ∈ filter_anims tagexp_list tag_result anim_dict
  <-> p ∈ anim_dict
      ∧ required_tags tag_result ⊆ exp_tags_of tagexp_list (getTags p.2)
      ∧ banned_tags tag_result ## exp_tags_of tagexp_list (getTags p.2).
Proof.
  rewrite filter_anims_eq, list_elem_of_In, filter_In, <- list_elem_of_In, admits_spec.
  reflexivity.
Qed.

(** C4: the expanded tag set of an animation contains the original tags, is
    the original set joined with the [to] sets of exactly the expansions
    whose [from] tag is an original tag, and nothing else enters it; the
    computation is a total function, and membership of [from] is tested on
    the original tags only, so added tags are not expanded again. *)
Theorem expansion_adds_one_level (tagexp_list : list TagExpansion) (A : StrSet) :
  A ⊆ exp_tags_of tagexp_list A
  ∧ exp_tags_of tagexp_list A
    = A ∪ ⋃ (to <$> filter (fun e => from e ∈ A) tagexp_list)
  ∧ (forall t, t ∈ exp_tags_of tagexp_list A
               <-> t ∈ A ∨ exists e, e ∈ tagexp_list ∧ from e ∈ A ∧ t ∈ to e).
Proof.
  split; [|split].
  - rewrite exp_tags_of_eq. set_solver.
  - apply exp_tags_of_eq.
  - intros t. rewrite exp_tags_of_eq, elem_of_union, elem_of_union_list.
    split; (intros [Ht|Ht]; [by left|right]).
    + destruct Ht as (X & HX & Ht). apply list_elem_of_fmap in HX as (e & -> & He).
      apply list_elem_of_filter in He as [Hf He]. eauto.
    + destruct Ht as (e & He & Hf & Ht). exists (to e). split; [|exact Ht].
      apply list_elem_of_fmap. exists e. split; [reflexivity|].
      apply list_elem_of_filter. auto.
Qed.

(** A chain a -> b -> c only yields b for an entry tagged a. *)
Example expansion_not_transitive :
  exp_tags_of [mkTagExpansion "a" {[ "b" ]}; mkTagExpansion "b" {[ "c" ]}] {[ "a" ]}
  = {[ "a"; "b" ]}.
Proof. vm_compute. reflexivity. Qed.
End SelectFacts.

Section PickFacts.
Import StrSetOps Select.

Variable random_device : nat -> Z.
Variable unif : nat -> nat -> Z -> nat * Z.

Lemma pick_from_nil (r : Rng) : pick_from random_device unif [] r = (None, r).
Proof. reflexivity. Qed.

Lemma pick_from_cons (a : AnimPtr) (l : list AnimPtr) (r : Rng) :
  pick_from random_device unif (a :: l) r
  = ((a :: l) !! (unif 0 (length l) (random_device (device_reads r))).1,
     mkRng (unif 0 (length l) (random_device (device_reads r))).2
           (S (seed_calls r)) (S (device_reads r))).
Proof.
  unfold pick_from, call_once, seed_from_device. cbn [length gen seed_calls device_reads].
  replace (S (length l) - 1) with (length l) by lia. destruct (unif 0 (length l) _) as [i g]. reflexivity.
Qed.

Lemma pick_from_some (filtered : list AnimPtr) (r : Rng) :
  unif_in_range unif -> filtered <> [] ->
  exists anim, (pick_from random_device unif filtered r).1 = Some anim ∧ anim ∈ filtered.
Proof.
  intros Hu Hne. destruct filtered as [|a l]; [done|].
  rewrite pick_from_cons. cbn [fst].
  destruct (Hu 0 (length l) (random_device (device_reads r))) as [_ Hi]; [lia|].
  destruct (lookup_lt_is_Some_2 (a :: l) (unif 0 (length l) (random_device (device_reads r))).1)
    as [anim Ha]; [simpl; lia|].
  exists anim. split; [exact Ha|]. eapply list_elem_of_lookup_2. exact Ha.
Qed.


(** Every call that finds a candidate seeds the engine and reads the
    entropy source: the local [once_flag] starts unset on each call. *)
Lemma pick_from_seeds (filtered : list AnimPtr) (r : Rng) :
  filtered <> [] ->
  seed_calls (pick_from random_device unif filtered r).2 = S (seed_calls r)
  ∧ device_reads (pick_from random_device unif filtered r).2 = S (device_reads r).
Proof.
  intros Hne. destruct filtered as [|a l]; [done|]. rewrite pick_from_cons. done.
Qed.

(** C3, as the code behaves: on a pool of one untagged entry and no tag
    requirement, two selections in a row seed the engine twice, from two
    reads of the entropy source. *)
Theorem pickAnimation_seeds_on_every_call :
  let pool : AnimDict := [("e1", mkAnimEntry ∅)] in
  let none := mkTaggerOutput ∅ ∅ in
  let r1 := (pickEntry random_device unif pool none [] rng_init).2 in
  let r2 := (pickEntry random_device unif pool none [] r1).2 in
  seed_calls r1 = 1 ∧ seed_calls r2 = 2 ∧ device_reads r2 = 2.
Proof.
  cbv zeta. unfold pickEntry.
  assert (E : filter_anims [] (mkTaggerOutput ∅ ∅) [("e1", mkAnimEntry ∅)]
              = [("e1", mkAnimEntry ∅)]) by (vm_compute; reflexivity).
  rewrite E, !pick_from_cons. cbn. done.
Qed.
End PickFacts.

Lemma minstd_draw_in_range : Select.unif_in_range Select.minstd_draw.
Proof.
  intros lo hi g Hle. unfold Select.minstd_draw. cbn [fst].
  pose proof (Z.mod_pos_bound (16807 * g `mod` 2147483647) (Z.of_nat (hi - lo) + 1)) as Hb.
  lia.
Qed.


Section TaggerOutputFacts.
Import Filter.

(** C10: [TaggerOutput::fromToml] throws exactly when [req_tags] is not an
    array, and then with its one error message; when [req_tags] is an array
    and [ban_tags] is absent or not an array the guard is passed and the
    null result of [as_array] is dereferenced; the read of [ban_tags] is
    defined, and the tags are returned, when both are arrays. *)
Theorem TaggerOutput_fromToml_guard_reads_req_tags_only (tbl : Toml.table) :
  ((exists what, TaggerOutput_fromToml tbl = Throw what)
     <-> Toml.as_array (StdMap.get tbl "req_tags") = None)
  ∧ (forall what, TaggerOutput_fromToml tbl = Throw what -> what = TaggerOutput_error)
  ∧ (is_Some (Toml.as_array (StdMap.get tbl "req_tags")) ->
     Toml.as_array (StdMap.get tbl "ban_tags") = None ->
     TaggerOutput_fromToml tbl = Undefined)
  ∧ (forall req ban,
       Toml.as_array (StdMap.get tbl "req_tags") = Some req ->
       Toml.as_array (StdMap.get tbl "ban_tags") = Some ban ->
       TaggerOutput_fromToml tbl
       = Ok (mkTaggerOutput (StrSetToml.fromToml req) (StrSetToml.fromToml ban))).
Proof.
  unfold TaggerOutput_fromToml.
  destruct (Toml.as_array (StdMap.get tbl "req_tags")) as [req|] eqn:Hreq;
    destruct (Toml.as_array (StdMap.get tbl "ban_tags")) as [ban|] eqn:Hban;
    cbn; unfold mret, result_ret; repeat split; try congruence;
    try (intros [? ?]; congruence);
    try (intros; exfalso; eapply is_Some_None; eassumption); eauto.
Qed.

(** A table with [req_tags] only: the guard is passed. *)
Example TaggerOutput_fromToml_ban_tags_absent :
  TaggerOutput_fromToml [("req_tags", Toml.Array [Toml.String "a"])] = Undefined.
Proof. reflexivity. Qed.

Example TaggerOutput_fromToml_req_tags_absent :
  TaggerOutput_fromToml [("ban_tags", Toml.Array [Toml.String "a"])]
  = Throw TaggerOutput_error.
Proof. reflexivity. Qed.
End TaggerOutputFacts.

Section LastHostileFacts.
Import Re.

Lemma Qltb_lt (x y : Q) : Qltb x y = true <-> (x < y)%Q.
Proof.
  unfold Qltb. rewrite negb_true_iff. split.
  - intros H. apply Qnot_le_lt. intros Hle. apply Qle_bool_iff in Hle. congruence.
  - intros H. destruct (Qle_bool y x) eqn:E; [|reflexivity].
    apply Qle_bool_iff in E. exfalso. exact (Qlt_not_le _ _ H E).
Qed.

Lemma Qle_bool_false (x y : Q) : Qle_bool x y = false <-> (y < x)%Q.
Proof.
  rewrite <- Qltb_lt. unfold Qltb. rewrite negb_true_iff. reflexivity.
Qed.

(** The loop answers that a hostile actor is around exactly when some
    handle leads to a living actor, other than the two, that is within the
    range of the attacker and hostile to it. *)
Lemma hostile_among_spec (g : Game) (attacker victim : Actor) (range : Q)
    (handles : list ActorHandle) :
  hostile_among g attacker victim range handles = true
  <-> exists actor, handle_to actor ∈ handles
        ∧ actor <> attacker ∧ actor <> victim
        ∧ (0 < health g actor)%Q
        ∧ (distance g actor attacker < range)%Q
        ∧ IsHostileToActor g actor attacker = true.
Proof.
  induction handles as [|h rest IH]; simpl.
  - split; [discriminate|]. intros (a & Ha & _). inversion Ha.
  - destruct h as [| |actor].
    + rewrite IH. split; intros (a & Ha & H); exists a; (split; [|exact H]).
      * by right.
      * by apply elem_of_cons in Ha as [?|?].
    + rewrite IH. split; intros (a & Ha & H); exists a; (split; [|exact H]).
      * by right.
      * by apply elem_of_cons in Ha as [?|?].
    + destruct (Nat.eqb actor attacker || Nat.eqb actor victim
                || Qle_bool (health g actor) 0) eqn:Eskip.
      * rewrite IH. split; intros (a & Ha & H); exists a; (split; [|exact H]).
        -- by right.
        -- apply elem_of_cons in Ha as [Heq|?]; [|done]. exfalso.
           injection Heq as ->. destruct H as (Hna & Hnv & Hh & _).
           apply orb_true_iff in Eskip as [Eskip|Eskip];
             [apply orb_true_iff in Eskip as [Eskip|Eskip]|].
           ++ apply Nat.eqb_eq in Eskip. done.
           ++ apply Nat.eqb_eq in Eskip. done.
           ++ apply Qle_bool_iff in Eskip. exact (Qlt_not_le _ _ Hh Eskip).
      * apply orb_false_iff in Eskip as [Eskip Eh].
        apply orb_false_iff in Eskip as [Ea Ev].
        apply Nat.eqb_neq in Ea, Ev. apply Qle_bool_false in Eh.
        destruct (Qltb (distance g actor attacker) range
                  && IsHostileToActor g actor attacker) eqn:Ehit.
        -- split; [intros _|done]. apply andb_true_iff in Ehit as [Hd Hh].
           apply Qltb_lt in Hd. exists actor. split; [by left|done].
        -- rewrite IH. split; intros (a & Ha & H); exists a; (split; [|exact H]).
           ++ by right.
           ++ apply elem_of_cons in Ha as [Heq|?]; [|done]. exfalso.
              injection Heq as ->. destruct H as (_ & _ & _ & Hd & Hh).
              apply Qltb_lt in Hd. rewrite Hd, Hh in Ehit. discriminate.
Qed.

(** C9, as the code has it: the test holds exactly when the process lists
    exist and either no high actor is counted, or no living actor other than
    attacker and victim is within the range of the attacker and hostile to
    it and, when neither attacker nor victim is the player, the player is
    not within the range of the attacker with the attacker hostile to the
    player. The victim's own hostility and distance are not looked at. *)
Theorem LastHostile_true_iff_no_other_hostile_in_range
    (g : Game) (range : Q) (attacker victim : Actor) :
  isLastHostileInRange g attacker victim range = true
  <-> exists pl, process_lists g = Some pl
        ∧ (numberHighActors pl = 0
           ∨ ((forall actor, handle_to actor ∈ highActorHandles pl ->
                 actor <> attacker -> actor <> victim ->
                 (0 < health g actor)%Q ->
                 (distance g actor attacker < range)%Q ->
                 IsHostileToActor g actor attacker = false)
              ∧ (IsPlayerRef g attacker = false -> IsPlayerRef g victim = false ->
                 forall p, player g = Some p ->
                   (distance g p attacker < range)%Q ->
                   IsHostileToActor g attacker p = false))).
Proof.
  unfold isLastHostileInRange.
  destruct (process_lists g) as [pl|]; [|split; [discriminate|intros (? & ? & _); discriminate]].
  destruct (Nat.eqb (numberHighActors pl) 0) eqn:En.
  { apply Nat.eqb_eq in En. split; [|done]. intros _. exists pl. split; [done|by left]. }
  apply Nat.eqb_neq in En.
  destruct (hostile_among g attacker victim range (highActorHandles pl)) eqn:Eloop.
  { split; [discriminate|]. intros (pl' & [= <-] & [?|[Hno _]]); [done|].
    apply hostile_among_spec in Eloop as (a & Ha & Hna & Hnv & Hh & Hd & Hhost).
    rewrite (Hno a Ha Hna Hnv Hh Hd) in Hhost. discriminate. }
  assert (Hno : forall actor, handle_to actor ∈ highActorHandles pl ->
                  actor <> attacker -> actor <> victim ->
                  (0 < health g actor)%Q ->
                  (distance g actor attacker < range)%Q ->
                  IsHostileToActor g actor attacker = false).
  { intros a Ha Hna Hnv Hh Hd. destruct (IsHostileToActor g a attacker) eqn:E; [|done].
    assert (hostile_among g attacker victim range (highActorHandles pl) = true) as X;
      [|congruence].
    apply hostile_among_spec. exists a. done. }
  unfold hostile_player.
  destruct (IsPlayerRef g attacker) eqn:Epa; cbn [negb andb].
  { split; [|done]. intros _. exists pl. split; [done|]. right. split; [done|]. done. }
  destruct (IsPlayerRef g victim) eqn:Epv; cbn [negb andb].
  { split; [|done]. intros _. exists pl. split; [done|]. right. split; [done|]. done. }
  destruct (player g) as [p|] eqn:Ep.
  - destruct (Qltb (distance g p attacker) range && IsHostileToActor g attacker p) eqn:Ehit.
    + split; [discriminate|]. intros (pl' & [= <-] & [?|[_ Hpl]]); [done|].
      apply andb_true_iff in Ehit as [Hd Hh]. apply Qltb_lt in Hd.
      rewrite (Hpl eq_refl eq_refl p eq_refl Hd) in Hh. discriminate.
    + split; [|done]. intros _. exists pl. split; [done|]. right. split; [done|].
      intros _ _ p' [= <-] Hd. apply Qltb_lt in Hd. rewrite Hd in Ehit.
      destruct (IsHostileToActor g attacker p); [discriminate|done].
  - split; [|done]. intros _. exists pl. split; [done|]. right. split; [done|].
    intros _ _ p' Hp'. discriminate.
Qed.

(** C9 as stated fails in both directions: a victim that is the nearest
    hostile in range is refused when a second hostile is in range, and a
    victim that is no hostile at all is accepted when nobody else is. *)
Lemma LastHostile_is_not_nearest_hostile :
  (victim_is_nearest_hostile Samples.two_hostiles 1 2 10 = true
   ∧ isLastHostileInRange Samples.two_hostiles 1 2 10 = false)
  ∧ (victim_is_nearest_hostile Samples.lone_bystander 1 2 1024 = false
     ∧ isLastHostileInRange Samples.lone_bystander 1 2 1024 = true).
Proof. vm_compute. done. Qed.
End LastHostileFacts.

Section StdMapFacts.
Context {V : Type}.
Implicit Types (m : list (string * V)) (k : string) (v : V).

Lemma get_Some_elem m k v : StdMap.get m k = Some v -> (k, v) ∈ m.
Proof.
  induction m as [|[k' v'] m IH]; simpl; [discriminate|].
  destruct (String.eqb k k') eqn:E.
  - apply String.eqb_eq in E as ->. intros [= ->]. by left.
  - intros H. right. auto.
Qed.

Lemma get_None_keys m k : StdMap.get m k = None <-> k ∉ StdMap.keys m.
Proof.
  unfold StdMap.keys. induction m as [|[k' v'] m IH]; simpl.
  - split; [intros _ H; inversion H|done].
  - destruct (String.eqb k k') eqn:E.
    + apply String.eqb_eq in E as ->. split; [discriminate|]. intros H. exfalso. apply H. by left.
    + apply String.eqb_neq in E. rewrite IH. rewrite not_elem_of_cons. tauto.
Qed.

Lemma get_insert_or_assign_ne m k k' v :
  k <> k' -> StdMap.get (StdMap.insert_or_assign k v m) k' = StdMap.get m k'.
Proof.
  intros Hne.
  assert (E : String.eqb k' k = false) by (apply String.eqb_neq; congruence).
  induction m as [|[k0 v0] m IH]; simpl.
  - by rewrite E.
  - destruct (String.compare k k0) eqn:C; simpl.
    + apply String.compare_eq_iff in C as <-. by rewrite E.
    + by rewrite E.
    + by rewrite IH.
Qed.
End StdMapFacts.

Section CheckParamsFacts.
Import RuleH.

Lemma from_json_Some (members : ParamsClass) (j : Json.value) :
  is_Some (from_json members j)
  <-> forall name dflt, (name, dflt) ∈ members ->
        exists jv, Json.at_ j name = Some jv ∧ is_Some (get_to (type_of dflt) jv).
Proof.
  induction members as [|[name dflt] rest IH]; simpl.
  - split; [intros _ ? ? H; inversion H|eauto].
  - split.
    + intros Hs n d Hin.
      destruct (Json.at_ j name) as [jv|] eqn:Eat; [|by destruct Hs].
      destruct (get_to (type_of dflt) jv) as [v|] eqn:Eget; [|by destruct Hs].
      destruct (from_json rest j) as [obj|] eqn:Erest; [|by destruct Hs].
      apply elem_of_cons in Hin as [[= -> ->]|Hin].
      * exists jv. rewrite Eget. eauto.
      * apply IH; eauto.
    + intros Hall.
      destruct (Hall name dflt) as (jv & -> & [v ->]); [by left|].
      destruct (proj2 IH) as [obj ->]; [|eauto].
      intros n d Hin. apply Hall. by right.
Qed.

Lemma checkParams_true (r : RuleType) (blob : Json.value) :
  checkParams r blob = true <-> is_Some (from_json (params_class r) blob).
Proof.
  unfold checkParams. destruct (from_json _ _); split; eauto; try discriminate.
  intros [? ?]. discriminate.
Qed.

Lemma same_structure_field (a b : list (string * Json.value)) (k : string) (d : Json.value) :
  RuleH.same_structure (Json.object a) (Json.object b) = true ->
  (k, d) ∈ b ->
  exists jv d', StdMap.get a k = Some jv ∧ StdMap.get b k = Some d'
                ∧ Json.type jv = Json.type d'.
Proof.
  unfold same_structure. rewrite andb_true_iff, !forallb_forall. intros [Ha Hb] Hin.
  apply list_elem_of_In in Hin. specialize (Hb _ Hin). cbn in Hb.
  apply bool_decide_eq_true in Hb as [jv Hjv].
  pose proof (get_Some_elem _ _ _ Hjv) as Hin'. apply list_elem_of_In in Hin'.
  specialize (Ha _ Hin'). cbn in Ha.
  destruct (StdMap.get b k) as [d'|]; [|discriminate].
  apply bool_decide_eq_true in Ha. eauto.
Qed.

(** C6, as the code has it: [checkParams] accepts a blob exactly when it is
    an object that holds every member of the rule's parameter struct with a
    value the member converts from. So a blob with the field structure of
    the defaults is accepted whatever its values, a blob that lacks a member
    (removed or renamed) is rejected, and a field the struct does not have
    makes no difference. *)
Theorem checkParams_accepts_iff_members_convert (r : RuleType) (blob : Json.value) :
  (checkParams r blob = true
     <-> exists members, blob = Json.object members
           ∧ forall name dflt, (name, dflt) ∈ params_class r ->
               exists jv, StdMap.get members name = Some jv
                          ∧ is_Some (get_to (type_of dflt) jv))
  ∧ (same_structure blob (getDefaultParams r) = true -> checkParams r blob = true)
  ∧ (forall members name dflt,
       blob = Json.object members -> (name, dflt) ∈ params_class r ->
       name ∉ StdMap.keys members -> checkParams r blob = false)
  ∧ (forall members extra v,
       blob = Json.object members -> extra ∉ (params_class r).*1 ->
       checkParams r (Json.object (StdMap.insert_or_assign extra v members))
       = checkParams r blob).
Proof.
  assert (Hiff : checkParams r blob = true
     <-> exists members, blob = Json.object members
           ∧ forall name dflt, (name, dflt) ∈ params_class r ->
               exists jv, StdMap.get members name = Some jv
                          ∧ is_Some (get_to (type_of dflt) jv)).
  { rewrite checkParams_true, from_json_Some. split.
    - intros Hall.
      assert (exists nd, nd ∈ params_class r) as [[n d] Hnd]
        by (destruct r; eexists; left).
      destruct (Hall n d Hnd) as (jv & Hjv & _).
      destruct blob as [| | | | | | |members]; try discriminate.
      exists members. split; [done|]. exact Hall.
    - intros (members & -> & Hall). exact Hall. }
  split; [exact Hiff|]. split; [|split].
  - intros Hsame. apply Hiff. unfold getDefaultParams, to_json in Hsame.
    destruct blob as [| | | | | | |members]; try discriminate.
    exists members. split; [done|]. intros name dflt Hin.
    assert (Hd : (name, to_json_field dflt)
                 ∈ foldl (fun m '(name, v) => StdMap.insert_or_assign name (to_json_field v) m)
                         [] (params_class r)
                 ∧ StdMap.get (foldl (fun m '(name, v) =>
                                        StdMap.insert_or_assign name (to_json_field v) m)
                                     [] (params_class r)) name
                   = Some (to_json_field dflt)).
    { destruct r; cbn in Hin |- *;
        repeat (apply elem_of_cons in Hin as [[= -> ->]|Hin]; [cbn; split; [set_solver|done]|]);
        inversion Hin. }
    destruct Hd as [Hd1 Hd2].
    destruct (same_structure_field _ _ _ _ Hsame Hd1) as (jv & d' & Hjv & Hd' & Hty).
    rewrite Hd2 in Hd'. injection Hd' as <-.
    exists jv. split; [exact Hjv|].
    destruct dflt, jv; cbn in Hty |- *; try discriminate; eauto.
  - intros members name dflt -> Hin Hnot.
    apply not_true_is_false. intros E.
    apply Hiff in E as (members' & [= <-] & Hall).
    destruct (Hall _ _ Hin) as (jv & Hjv & _).
    apply get_None_keys in Hnot. congruence.
  - intros members extra v -> Hextra.
    apply eq_true_iff_eq. rewrite !checkParams_true, !from_json_Some.
    split; intros Hall name dflt Hin; specialize (Hall _ _ Hin); cbn in Hall |- *.
    + rewrite get_insert_or_assign_ne in Hall; [done|].
      intros ->. apply Hextra. apply list_elem_of_fmap. exists (name, dflt). done.
    + rewrite get_insert_or_assign_ne; [done|].
      intros ->. apply Hextra. apply list_elem_of_fmap. exists (name, dflt). done.
Qed.

(** C6 as stated fails: a blob with a field the defaults do not have is
    accepted by [checkParams], although its key set differs from theirs. *)
Lemma checkParams_accepts_added_field :
  let blob := Json.object [("extra", Json.number_integer 1); ("value", Json.boolean false)] in
  checkParams UnconditionalRule blob = true
  ∧ same_structure blob (getDefaultParams UnconditionalRule) = false.
Proof. vm_compute. done. Qed.
End CheckParamsFacts.

Section StateFacts.

Lemma bind_ok {S A B : Type} (m : St S A) (k : A -> St S B) (s : S) (a : A) (s' : S) :
  m s = (Ok a, s') -> (m ≫= k) s = k a s'.
Proof. intros H. unfold mbind, St_bind. by rewrite H. Qed.

Lemma set_rules_same (w : World) : set_rules (fun _ => rules w) w = w.
Proof. by destruct w. Qed.

Lemma rule_eta (r : Rule) : mkRule (cls r) (params r) = r.
Proof. by destruct r. Qed.

End StateFacts.

Section LoadFacts.
Import Filter Loading.

Variable getRule : string -> St RuleStore RulePtr.

(** [Tagger::fromToml], step by step. *)
Lemma Tagger_fromToml_unfold (tbl : Toml.table) (h : RuleStore) :
  Tagger_fromToml getRule tbl h =
  if negb (Tagger_fields_present tbl)
  then (Throw "Required Tagger field(s) unfulfilled.", h)
  else match Toml.as_string (StdMap.get tbl "rule") with
       | None => (Undefined, h)
       | Some name =>
           match getRule name h with
           | (Ok ptr, h1) =>
               match h1 !! ptr with
               | None => (Undefined, h1)
               | Some r =>
                   match Toml.as_table (StdMap.get tbl "params") with
                   | None => (Undefined, h1)
                   | Some p =>
                       if negb (Rules.checkParamsValidity r p)
                       then (Throw ("Wrong parameters for rule type " ++ name ++ "."), h1)
                       else (Tagger_fromToml_tail tbl ptr, <[ ptr := mkRule (cls r) p ]> h1)
                   end
               end
           | (Throw e, h1) => (Throw e, h1)
           | (Undefined, h1) => (Undefined, h1)
           end
       end.
Proof.
  unfold Tagger_fromToml. destruct (negb (Tagger_fields_present tbl)); [reflexivity|].
  unfold mbind, St_bind, lift, rule_at, assign_params, throw, modify.
  destruct (Toml.as_string (StdMap.get tbl "rule")) as [name|]; cbn; [|reflexivity].
  destruct (getRule name h) as [[ptr|e|] h1]; [|reflexivity|reflexivity].
  destruct (h1 !! ptr) as [r|] eqn:Hr; cbn; [|reflexivity].
  destruct (Toml.as_table (StdMap.get tbl "params")) as [p|]; cbn; [|reflexivity].
  destruct (negb (Rules.checkParamsValidity r p)); cbn; [reflexivity|].
  unfold mbind, St_bind, rule_at. rewrite Hr. cbn. reflexivity.
Qed.

(** One round of the loop over [taggers]. *)
Lemma load_tagger_step (w : World) (b : bool) (v : Toml.node) :
  (entry_result getRule v (rules w)).1 <> Undefined ->
  load_tagger getRule b v w
  = (Ok (b && is_ok (entry_result getRule v (rules w)).1),
     mkWorld (entry_result getRule v (rules w)).2
             (tagger_list w ++ option_list (ok_value (entry_result getRule v (rules w)).1))
             (tagexp_list w) (files w) (unwritable w)
             (log w ++ option_list (entry_warning (entry_result getRule v (rules w)).1))).
Proof.
  intros Hdef.
  destruct v as [s|z|q|b'|elems|t];
    try (cbn; rewrite andb_false_r, app_nil_r; reflexivity).
  unfold load_tagger, try_catch, mbind, St_bind, on_rules. cbn [Toml.as_table].
  cbn [entry_result] in Hdef |- *.
  destruct (Tagger_fromToml getRule t (rules w)) as [res h1]. cbn [fst snd] in *.
  destruct res as [tagger|what|]; [| |done]; cbn.
  - by rewrite andb_true_r, app_nil_r.
  - by rewrite andb_false_r, app_nil_r.
Qed.

Lemma load_taggers_loop (arr : list Toml.node) :
  forall (w : World) (b : bool),
  Forall (fun r => r <> Undefined) (run_entries getRule arr (rules w)).1 ->
  for_each arr (load_tagger getRule) b w
  = (Ok (b && forallb is_ok (run_entries getRule arr (rules w)).1),
     mkWorld (run_entries getRule arr (rules w)).2
             (tagger_list w ++ omap ok_value (run_entries getRule arr (rules w)).1)
             (tagexp_list w) (files w) (unwritable w)
             (log w ++ omap entry_warning (run_entries getRule arr (rules w)).1)).
Proof.
  induction arr as [|v arr IH]; intros w b Hdef.
  - cbn. rewrite andb_true_r, !app_nil_r. by destruct w.
  - cbn [run_entries] in Hdef |- *.
    pose proof (load_tagger_step w b v) as Hstep.
    destruct (entry_result getRule v (rules w)) as [r h1].
    specialize (IH (mkWorld h1 (tagger_list w ++ option_list (ok_value r))
                            (tagexp_list w) (files w) (unwritable w)
                            (log w ++ option_list (entry_warning r)))
                   (b && is_ok r)).
    cbn [rules tagger_list tagexp_list files unwritable log] in IH.
    destruct (run_entries getRule arr h1) as [rs h2]. cbn [fst snd] in *.
    apply Forall_cons in Hdef as [Hr Hrs].
    cbn [for_each]. rewrite (bind_ok _ _ _ _ _ (Hstep Hr)), (IH Hrs).
    cbn [forallb omap list_omap]. rewrite andb_assoc. do 2 f_equal.
    + rewrite <- app_assoc. by destruct (ok_value r).
    + rewrite <- app_assoc. by destruct (entry_warning r).
Qed.

Lemma load_tagexp_array (b : bool) (k : string) (a : Toml.array) (w : World) :
  load_tagexp b (k, Toml.Array a) w
  = (Ok b, set_tagexp_list (fun l => l ++ [mkTagExpansion k (StrSetToml.fromToml a)]) w).
Proof. reflexivity. Qed.

Lemma load_tagexp_other (b : bool) (k : string) (v : Toml.node) (w : World) :
  Toml.as_array (Some v) = None ->
  load_tagexp b (k, v) w
  = (Ok false,
     set_log (fun l => l ++
       [warn "Failed to parse one of the tag expansions. Error: Wrong data type."]) w).
Proof. intros H. unfold load_tagexp. rewrite H. reflexivity. Qed.

(** The loop over [tagexps], entry by entry. *)
Lemma load_tagexps_exact (entries : list (string * Toml.node)) :
  forall (w : World) (b : bool),
  exists w',
    for_each entries load_tagexp b w
    = (Ok (b && forallb (fun e => bool_decide (is_Some (tagexp_of_entry e))) entries), w')
    ∧ rules w' = rules w
    ∧ tagger_list w' = tagger_list w
    ∧ tagexp_list w' = tagexp_list w ++ omap tagexp_of_entry entries
    ∧ files w' = files w
    ∧ unwritable w' = unwritable w
    ∧ (forall l, l ∈ log w -> l ∈ log w').
Proof.
  induction entries as [|[k v] entries IH]; intros w b.
  - exists w. cbn. rewrite andb_true_r, app_nil_r. done.
  - cbn [for_each forallb omap list_omap].
    destruct (tagexp_of_entry (k, v)) as [e|] eqn:Ee.
    + assert (exists a, v = Toml.Array a ∧ e = mkTagExpansion k (StrSetToml.fromToml a))
        as (a & -> & ->).
      { unfold tagexp_of_entry in Ee. simpl in Ee.
        destruct v; simpl in Ee; try discriminate. injection Ee as <-. eauto. }
      destruct (IH (set_tagexp_list
                      (fun l => l ++ [mkTagExpansion k (StrSetToml.fromToml a)]) w) b)
        as (w' & Hl & Hr & Ht & Hte & Hf & Hu & Hlog).
      exists w'. split.
      * rewrite (bind_ok _ _ w b _ (load_tagexp_array b k a w)). rewrite Hl.
        rewrite bool_decide_eq_true_2 by eauto. done.
      * rewrite Hr, Ht, Hte, Hf, Hu. cbn. rewrite <- app_assoc.
        repeat split; try done; intros l Hin; by apply Hlog.
    + assert (Ea : Toml.as_array (Some v) = None).
      { unfold tagexp_of_entry in Ee. destruct v; simpl in Ee |- *; done. }
      destruct (IH (set_log (fun l => l ++
                      [warn "Failed to parse one of the tag expansions. Error: Wrong data type."]) w)
                   false)
        as (w' & Hl & Hr & Ht & Hte & Hf & Hu & Hlog).
      exists w'. split.
      * rewrite (bind_ok _ _ w false _ (load_tagexp_other b k v w Ea)). rewrite Hl.
        rewrite bool_decide_eq_false_2 by (intros [? ?]; discriminate).
        cbn. by rewrite andb_false_r.
      * rewrite Hr, Ht, Hte, Hf, Hu.
        repeat split; try done; intros l Hin; apply Hlog; cbn; apply elem_of_app; by left.
Qed.

(** The first steps of a load of a parseable file: the lists are cleared
    unless [append] is set, the file is parsed and the parse is logged. *)
Lemma loadFile_start (w : World) (dir : string) (append : bool) (tbl : Toml.table) :
  files w !! dir = Some (TomlFile tbl) ->
  loadFile getRule dir append w =
    (all_good ←
       match Toml.as_array (StdMap.get tbl "taggers") with
       | Some taggers_arr => for_each taggers_arr (load_tagger getRule) true
       | None =>
           _ ← logger_warn ("Required " ++ dquote ++ "taggers" ++ dquote
                            ++ " field unfulfilled. Skipped.");
           mret true
       end;
     match Toml.as_table (StdMap.get tbl "tagexps") with
     | Some taggers_tbl => for_each taggers_tbl load_tagexp all_good
     | None =>
         _ ← logger_warn ("Required " ++ dquote ++ "tagexps" ++ dquote
                          ++ " field unfulfilled. Skipped.");
         mret false
     end)
    (set_log (fun l => l ++ [info ("Parsing filter file " ++ dir)])
       (if append then w
        else set_tagexp_list (fun _ => []) (set_tagger_list (fun _ => []) w))).
Proof.
  intros Hfile.
  set (w0 := if append then w
             else set_tagexp_list (fun _ => []) (set_tagger_list (fun _ => []) w)).
  unfold loadFile.
  rewrite (bind_ok _ _ w tt w0) by (unfold w0; destruct append; reflexivity).
  rewrite (bind_ok _ _ w0 (Some tbl) w0).
  - rewrite (bind_ok _ _ w0 tt _) by reflexivity. reflexivity.
  - unfold parse_file, gets.
    replace (files w0) with (files w) by (unfold w0; destruct append; done).
    by rewrite Hfile.
Qed.

(** A load of a parseable file, in full, as long as no element of [taggers]
    runs into the unchecked read of [ban_tags] or a lookup that is
    undefined. *)
Lemma loadFile_exact (w : World) (dir : string) (append : bool) (tbl : Toml.table) :
  files w !! dir = Some (TomlFile tbl) ->
  Forall (fun r => r <> Undefined) (run_entries getRule (taggers_of tbl) (rules w)).1 ->
  exists w',
    loadFile getRule dir append w
    = (Ok (forallb is_ok (run_entries getRule (taggers_of tbl) (rules w)).1
           && tagexps_ok tbl), w')
    ∧ rules w' = (run_entries getRule (taggers_of tbl) (rules w)).2
    ∧ tagger_list w'
      = (if append then tagger_list w else [])
        ++ omap ok_value (run_entries getRule (taggers_of tbl) (rules w)).1
    ∧ tagexp_list w'
      = (if append then tagexp_list w else []) ++ omap tagexp_of_entry (tagexps_of tbl)
    ∧ files w' = files w
    ∧ unwritable w' = unwritable w
    ∧ (forall l, l ∈ omap entry_warning (run_entries getRule (taggers_of tbl) (rules w)).1 ->
                 l ∈ log w')
    ∧ (Toml.as_array (StdMap.get tbl "taggers") = None ->
       warn ("Required " ++ dquote ++ "taggers" ++ dquote ++ " field unfulfilled. Skipped.")
       ∈ log w')
    ∧ (Toml.as_table (StdMap.get tbl "tagexps") = None ->
       warn ("Required " ++ dquote ++ "tagexps" ++ dquote ++ " field unfulfilled. Skipped.")
       ∈ log w').
Proof.
  intros Hfile Hdef.
  rewrite (loadFile_start w dir append tbl Hfile).
  set (w0 := if append then w
             else set_tagexp_list (fun _ => []) (set_tagger_list (fun _ => []) w)).
  set (w1 := set_log (fun l => l ++ [info ("Parsing filter file " ++ dir)]) w0).
  set (results := (run_entries getRule (taggers_of tbl) (rules w)).1) in *.
  assert (Hr1 : rules w1 = rules w) by (unfold w1, w0; destruct append; done).
  assert (Hf1 : files w1 = files w) by (unfold w1, w0; destruct append; done).
  assert (Hu1 : unwritable w1 = unwritable w) by (unfold w1, w0; destruct append; done).
  assert (Ht1 : tagger_list w1 = if append then tagger_list w else [])
    by (unfold w1, w0; destruct append; done).
  assert (He1 : tagexp_list w1 = if append then tagexp_list w else [])
    by (unfold w1, w0; destruct append; done).
  assert (Hloop : exists w2,
    match Toml.as_array (StdMap.get tbl "taggers") with
    | Some taggers_arr => for_each taggers_arr (load_tagger getRule) true
    | None =>
        _ ← logger_warn ("Required " ++ dquote ++ "taggers" ++ dquote
                         ++ " field unfulfilled. Skipped.");
        mret true
    end w1
    = (Ok (forallb is_ok results), w2)
    ∧ rules w2 = (run_entries getRule (taggers_of tbl) (rules w)).2
    ∧ tagger_list w2 = tagger_list w1 ++ omap ok_value results
    ∧ tagexp_list w2 = tagexp_list w1
    ∧ files w2 = files w1
    ∧ unwritable w2 = unwritable w1
    ∧ (forall l, l ∈ omap entry_warning results -> l ∈ log w2)
    ∧ (Toml.as_array (StdMap.get tbl "taggers") = None ->
       warn ("Required " ++ dquote ++ "taggers" ++ dquote ++ " field unfulfilled. Skipped.")
       ∈ log w2)).
  { unfold results, taggers_of in *.
    destruct (Toml.as_array (StdMap.get tbl "taggers")) as [arr|].
    - rewrite <- Hr1 in Hdef |- *.
      rewrite (load_taggers_loop arr w1 true Hdef). cbn [andb].
      eexists. split; [reflexivity|]. cbn. repeat split; try done.
      intros l Hin. apply elem_of_app. by right.
    - eexists. split; [reflexivity|]. cbn. rewrite app_nil_r.
      repeat split; try done.
      + intros l Hin. inversion Hin.
      + intros _. apply elem_of_app. right. by left. }
  destruct Hloop as (w2 & Hloop & Hr2 & Htl2 & Hte2 & Hf2 & Hu2 & Hlog2 & Hlogt).
  unfold mbind at 1, St_bind at 1. rewrite Hloop.
  unfold tagexps_ok, tagexps_of.
  destruct (Toml.as_table (StdMap.get tbl "tagexps")) as [entries|].
  - destruct (load_tagexps_exact entries w2 (forallb is_ok results))
      as (w3 & Hl3 & Hr3 & Ht3 & Hte3 & Hf3 & Hu3 & Hlog3).
    exists w3. rewrite Hl3. repeat split; try done.
    + by rewrite Hr3, Hr2.
    + by rewrite Ht3, Htl2, Ht1.
    + by rewrite Hte3, Hte2, He1.
    + by rewrite Hf3, Hf2, Hf1.
    + by rewrite Hu3, Hu2, Hu1.
    + intros l Hin. apply Hlog3. by apply Hlog2.
    + intros Hnone. apply Hlog3. by apply Hlogt.
  - eexists. split; [cbn; rewrite andb_false_r; reflexivity|].
    cbn. rewrite app_nil_r. repeat split; try done.
    + by rewrite Htl2, Ht1.
    + by rewrite Hte2, He1.
    + by rewrite Hf2, Hf1.
    + by rewrite Hu2, Hu1.
    + intros l Hin. apply elem_of_app. left. by apply Hlog2.
    + intros Hnone. apply elem_of_app. left. by apply Hlogt.
    + intros _. apply elem_of_app. right. by left.
Qed.
End LoadFacts.

Section RoundTripFacts.
Import Filter.

Lemma StrSet_toToml_eq (s : StrSet) : StrSetToml.toToml s = Toml.String <$> elements s.
Proof.
  unfold StrSetToml.toToml.
  assert (G : forall (l : list string) (acc : Toml.array),
             foldl (fun arr v => arr ++ [Toml.String v]) acc l = acc ++ (Toml.String <$> l)).
  { induction l as [|x l IH]; intros acc; cbn; [by rewrite app_nil_r|].
    rewrite IH, <- app_assoc. done. }
  by rewrite G.
Qed.

Lemma StrSet_fromToml_strings (l : list string) :
  StrSetToml.fromToml (Toml.String <$> l) = list_to_set l.
Proof.
  unfold StrSetToml.fromToml.
  assert (G : forall (l0 : list string) (acc : StrSet),
             foldl (fun set v => match v with Toml.String s => {[ s ]} ∪ set | _ => set end)
                   acc (Toml.String <$> l0) = list_to_set l0 ∪ acc).
  { induction l0 as [|x l' IH]; intros acc; simpl; [set_solver|].
    rewrite IH. set_solver. }
  rewrite G. set_solver.
Qed.

(** A string set survives being written as an array and read back. *)
Lemma StrSet_roundtrip (s : StrSet) : StrSetToml.fromToml (StrSetToml.toToml s) = s.
Proof.
  rewrite StrSet_toToml_eq, StrSet_fromToml_strings. apply list_to_set_elements_L.
Qed.

Lemma TaggerOutput_roundtrip (o : TaggerOutput) :
  TaggerOutput_fromToml (TaggerOutput_toToml o) = Ok o.
Proof.
  destruct o as [req ban]. unfold TaggerOutput_fromToml.
  assert (E1 : Toml.as_array (StdMap.get (TaggerOutput_toToml (mkTaggerOutput req ban))
                                         "req_tags")
               = Some (StrSetToml.toToml req)) by reflexivity.
  assert (E2 : Toml.as_array (StdMap.get (TaggerOutput_toToml (mkTaggerOutput req ban))
                                         "ban_tags")
               = Some (StrSetToml.toToml ban)) by reflexivity.
  rewrite E1, E2. cbn -[StrSetToml.fromToml StrSetToml.toToml].
  by rewrite !StrSet_roundtrip.
Qed.

(** The fields of a written tagger, read back for a tagger at [ptr]. *)
Lemma Tagger_table_tail (r : Rule) (t : Tagger) (ptr : RulePtr) :
  Tagger_fromToml_tail (Tagger_table r t) ptr
  = Ok (mkTagger ptr (comment t) (enable_true t) (enable_false t)
                 (true_tags t) (false_tags t)).
Proof.
  unfold Tagger_fromToml_tail.
  assert (E1 : Toml.as_table (StdMap.get (Tagger_table r t) "true_tags")
               = Some (TaggerOutput_toToml (true_tags t))) by reflexivity.
  assert (E2 : Toml.as_table (StdMap.get (Tagger_table r t) "false_tags")
               = Some (TaggerOutput_toToml (false_tags t))) by reflexivity.
  assert (E3 : Toml.as_boolean (StdMap.get (Tagger_table r t) "enable_true")
               = Some (enable_true t)) by reflexivity.
  assert (E4 : Toml.as_boolean (StdMap.get (Tagger_table r t) "enable_false")
               = Some (enable_false t)) by reflexivity.
  assert (E5 : Toml.as_string (StdMap.get (Tagger_table r t) "comment")
               = Some (comment t)) by reflexivity.
  rewrite E1, E2, E3, E4, E5. cbn [deref mbind result_bind].
  rewrite !TaggerOutput_roundtrip. reflexivity.
Qed.

Lemma Tagger_toToml_live (w : World) (t : Tagger) (r : Rule) :
  rules w !! rule t = Some r ->
  on_rules (Tagger_toToml t) w = (Ok (Tagger_table r t), w).
Proof.
  intros Hr. unfold on_rules, Tagger_toToml, mbind, St_bind, rule_at. rewrite Hr. cbn.
  by rewrite set_rules_same.
Qed.

(** The loop of [saveFile] over the taggers. *)
Lemma save_taggers_loop (w : World) (ts : list Tagger) :
  Forall (fun t => is_Some (rules w !! rule t)) ts ->
  forall acc : Toml.array,
  exists arr,
    for_each ts (fun arr tagger => tbl ← on_rules (Tagger_toToml tagger);
                                   mret (arr ++ [Toml.Table tbl])) acc w
    = (Ok (acc ++ arr), w)
    ∧ Forall2 (fun t v => exists r, rules w !! rule t = Some r
                                    ∧ v = Toml.Table (Tagger_table r t)) ts arr.
Proof.
  induction 1 as [|t ts [r Hr] _ IH]; intros acc.
  - exists []. cbn. rewrite app_nil_r. split; [done|constructor].
  - destruct (IH (acc ++ [Toml.Table (Tagger_table r t)])) as (arr & Hloop & Hf2).
    exists (Toml.Table (Tagger_table r t) :: arr). split.
    + cbn [for_each].
      rewrite (bind_ok _ _ w (acc ++ [Toml.Table (Tagger_table r t)]) w).
      * rewrite Hloop. by rewrite <- app_assoc.
      * rewrite (bind_ok _ _ w (Tagger_table r t) w); [done|].
        by apply Tagger_toToml_live.
    + constructor; [|done]. exists r. done.
Qed.

Lemma emplace_perm {V : Type} (k : string) (v : V) (m : list (string * V)) :
  k ∉ StdMap.keys m -> StdMap.emplace k v m ≡ₚ (k, v) :: m.
Proof.
  unfold StdMap.keys. induction m as [|[k0 v0] m IH]; intros Hk; cbn; [done|].
  cbn in Hk. apply not_elem_of_cons in Hk as [Hne Hk].
  destruct (String.compare k k0) eqn:C.
  - apply String.compare_eq_iff in C. congruence.
  - done.
  - rewrite (IH Hk). apply perm_swap.
Qed.

(** What [saveFile] writes for an expansion. *)
Lemma save_tagexps_perm (exps : list TagExpansion) :
  NoDup (from <$> exps) ->
  forall acc : Toml.table,
  (forall e, e ∈ exps -> from e ∉ StdMap.keys acc) ->
  foldl (fun tbl tagexp =>
           StdMap.emplace (from tagexp) (Toml.Array (StrSetToml.toToml (to tagexp))) tbl)
        acc exps
  ≡ₚ ((fun e => (from e, Toml.Array (StrSetToml.toToml (to e)))) <$> exps) ++ acc.
Proof.
  induction exps as [|e exps IH]; intros Hnd acc Hacc; [done|].
  rewrite fmap_cons in Hnd. apply NoDup_cons in Hnd as [Hne Hnd].
  cbn [foldl]. rewrite IH; [| done |].
  - rewrite emplace_perm by (apply Hacc; left).
    rewrite fmap_cons. cbn. by rewrite Permutation_middle.
  - intros e' He'. unfold StdMap.keys.
    rewrite emplace_perm by (apply Hacc; left). cbn.
    apply not_elem_of_cons. split.
    + intros Heq. apply Hne. rewrite <- Heq. apply list_elem_of_fmap. by exists e'.
    + apply Hacc. by right.
Qed.

(** The loop of [loadFile] over the expansions that [saveFile] wrote. *)
Lemma load_saved_tagexps (exps : list TagExpansion) :
  forall (w : World) (b : bool),
  exists w',
    for_each ((fun e => (from e, Toml.Array (StrSetToml.toToml (to e)))) <$> exps)
             load_tagexp b w = (Ok b, w')
    ∧ rules w' = rules w
    ∧ tagger_list w' = tagger_list w
    ∧ tagexp_list w' = tagexp_list w ++ exps.
Proof.
  induction exps as [|e exps IH]; intros w b.
  - exists w. cbn. by rewrite app_nil_r.
  - destruct (IH (set_tagexp_list (fun l => l ++ [e]) w) b) as (w' & Hloop & Hr & Htl & Hte).
    exists w'. split.
    + rewrite fmap_cons. cbn [for_each].
      rewrite (bind_ok _ _ w b (set_tagexp_list (fun l => l ++ [e]) w)); [exact Hloop|].
      rewrite load_tagexp_array, StrSet_roundtrip. by destruct e.
    + rewrite Hr, Htl, Hte. cbn. by rewrite <- app_assoc.
Qed.

Lemma getRule_instance_hands_out (catalog : gmap string RuleClass) :
  hands_out_instances catalog (getRule_instance catalog).
Proof.
  intros name c h Hc. exists (fresh (dom h)), (getDefaultParams c). split.
  - apply not_elem_of_dom. apply is_fresh.
  - unfold getRule_instance. by rewrite Hc.
Qed.

Section WithLookup.
Variable getRule : string -> St RuleStore RulePtr.
Variable catalog : gmap string RuleClass.
Hypothesis lookup_hands_out : hands_out_instances catalog getRule.

(** A written tagger is read back as a tagger with a rule object of its
    own, equal to the one that was written. *)
Lemma Tagger_reload (h : RuleStore) (t : Tagger) (r : Rule) :
  catalog !! getName (cls r) = Some (cls r) ->
  Rules.checkParamsValidity r (params r) = true ->
  exists ptr,
    h !! ptr = None
    ∧ Tagger_fromToml getRule (Tagger_table r t) h
      = (Ok (mkTagger ptr (comment t) (enable_true t) (enable_false t)
                      (true_tags t) (false_tags t)),
         <[ ptr := r ]> h).
Proof.
  intros Hc Hvalid.
  destruct (lookup_hands_out _ _ h Hc) as (ptr & p0 & Hfresh & Hget).
  exists ptr. split; [done|].
  rewrite Tagger_fromToml_unfold.
  assert (Hfields : Tagger_fields_present (Tagger_table r t) = true) by reflexivity.
  assert (Hrule : Toml.as_string (StdMap.get (Tagger_table r t) "rule")
                  = Some (getName (cls r))) by reflexivity.
  assert (Hparams : Toml.as_table (StdMap.get (Tagger_table r t) "params")
                    = Some (params r)) by reflexivity.
  rewrite Hfields, Hrule, Hget, lookup_insert_eq, Hparams. cbn [negb].
  unfold Rules.checkParamsValidity in *. cbn [cls]. rewrite Hvalid. cbn [negb].
  by rewrite Tagger_table_tail, insert_insert_eq, rule_eta.
Qed.

(** The loop of [loadFile] over the records that [saveFile] wrote for the
    taggers [ts], whose rule objects are in [h0]. *)
Lemma load_saved_taggers (h0 : RuleStore) (ts : list Tagger) (arr : Toml.array) :
  Forall2 (fun t v => exists r, h0 !! rule t = Some r
                                ∧ catalog !! getName (cls r) = Some (cls r)
                                ∧ Rules.checkParamsValidity r (params r) = true
                                ∧ v = Toml.Table (Tagger_table r t)) ts arr ->
  forall w : World,
  exists w' ts',
    for_each arr (load_tagger getRule) true w = (Ok true, w')
    ∧ rules w ⊆ rules w'
    ∧ tagger_list w' = tagger_list w ++ ts'
    ∧ Forall2 (same_tagger h0 (rules w')) ts ts'
    ∧ tagexp_list w' = tagexp_list w
    ∧ files w' = files w
    ∧ unwritable w' = unwritable w
    ∧ log w' = log w.
Proof.
  induction 1 as [|t v ts arr (r & Hr & Hc & Hv & ->) _ IH]; intros w.
  - exists w, []. cbn. rewrite app_nil_r. repeat split; try done; constructor.
  - destruct (Tagger_reload (rules w) t r Hc Hv) as (ptr & Hfresh & Hload).
    set (t' := mkTagger ptr (comment t) (enable_true t) (enable_false t)
                        (true_tags t) (false_tags t)) in *.
    set (w1 := mkWorld (<[ ptr := r ]> (rules w)) (tagger_list w ++ [t'])
                       (tagexp_list w) (files w) (unwritable w) (log w)).
    assert (Hstep : load_tagger getRule true (Toml.Table (Tagger_table r t)) w = (Ok true, w1)).
    { unfold load_tagger, try_catch, mbind, St_bind, on_rules. cbn [Toml.as_table].
      rewrite Hload. reflexivity. }
    destruct (IH w1) as (w' & ts' & Hloop & Hsub & Htl & Hsame & Hte & Hf & Hu & Hl).
    exists w', (t' :: ts'). split.
    { cbn [for_each]. by rewrite (bind_ok _ _ _ _ _ Hstep). }
    split.
    { etrans; [|exact Hsub]. cbn. by apply insert_subseteq. }
    split.
    { rewrite Htl. cbn. by rewrite <- app_assoc. }
    split; [|done].
    constructor; [|done].
    split; [by rewrite Hr|]. split; [|done].
    rewrite Hr. cbn [rule t'].
    eapply lookup_weaken; [|exact Hsub]. cbn. apply lookup_insert_eq.
Qed.

End WithLookup.
End RoundTripFacts.

Section RoundTripSamples.
Import Filter Samples.


(** The pipeline of the witness after the round trip: the two taggers of the
    class Flag come back with rule objects of their own that keep the
    different parameters. *)
Example reloaded_taggers_keep_their_params :
  let w1 := (saveFile "pipeline.toml" world_pipeline).2 in
  let w2 := (loadFile (getRule_instance catalog0) "pipeline.toml" false w1).2 in
  (fun t => (fun r => (getName (cls r), params r)) <$> rules w2 !! rule t) <$> tagger_list w2
  = [Some ("Flag", [("check_attacker", Toml.Boolean false)]);
     Some ("Flag", [("check_attacker", Toml.Boolean true)]);
     Some ("Range", [("angle_max", Toml.Float 90%Q); ("angle_min", Toml.Float 0%Q)])].
Proof. vm_compute. reflexivity. Qed.

(** Loading one file and appending a second one gives a pipeline with two
    expansions of the same tag. *)
Example two_expansions_by_append :
  let w1 := (loadFile (getRule_instance catalog0) "x.toml" false world0).2 in
  (loadFile (getRule_instance catalog0) "y.toml" true w1).1 = Ok true
  ∧ tagexp_list (loadFile (getRule_instance catalog0) "y.toml" true w1).2
    = tagexp_list world_two_expansions.
Proof. vm_compute. done. Qed.

End RoundTripSamples.

Section LoadSamples.
Import Filter Loading Samples.

(** C7, as the code behaves: a record whose [true_tags] table has
    [req_tags] and no [ban_tags] passes the guard of
    [TaggerOutput::fromToml], and the null result of [as_array] is
    dereferenced, for every lookup that answers the name of the record with
    a rule object that accepts its parameters. So the load of a file that
    has such a record after a record with an unregistered rule name and a
    record whose params fail the check neither skips a record nor returns
    false, with a lookup that makes rule objects and with one that hands
    out the registered ones; without that record the same file is loaded
    with the answer false. *)
Theorem loadFile_unchecked_read_after_skipped_records :
  (forall (getRule : string -> St RuleStore RulePtr) (h h1 : RuleStore)
          (ptr : RulePtr) (r : Rule),
     getRule "Flag" h = (Ok ptr, h1) -> h1 !! ptr = Some r ->
     Rules.checkParamsValidity r [("check_attacker", Toml.Boolean false)] = true ->
     (entry_result getRule unchecked_record h).1 = Undefined)
  ∧ (loadFile (getRule_instance catalog0) "unchecked.toml" false world0).1 = Undefined
  ∧ (loadFile (getRule_shared registry0) "unchecked.toml" false world0).1 = Undefined
  ∧ (loadFile (getRule_instance catalog0) "mixed.toml" false world0).1 = Ok false
  ∧ (loadFile (getRule_shared registry0) "mixed.toml" false world0).1 = Ok false.
Proof.
  split; [|vm_compute; done].
  intros getRule h h1 ptr r Hget Hr Hvalid. cbn [entry_result unchecked_record].
  rewrite Tagger_fromToml_unfold.
  match goal with
  | |- context [Tagger_fields_present ?t] =>
      assert (Hf : Tagger_fields_present t = true) by reflexivity;
      assert (Hn : Toml.as_string (StdMap.get t "rule") = Some "Flag") by reflexivity;
      assert (Hp : Toml.as_table (StdMap.get t "params")
                   = Some [("check_attacker", Toml.Boolean false)]) by reflexivity;
      assert (Ht : forall q, Tagger_fromToml_tail t q = Undefined) by reflexivity
  end.
  rewrite Hf, Hn, Hget, Hr, Hp, Hvalid, Ht. reflexivity.
Qed.

(** C8, as the code behaves: the file has no [tagexps] key and its
    [taggers] array holds one record, whose [true_tags] table has
    [req_tags] and no [ban_tags]; the load runs into the unchecked read of
    [ban_tags] and does not return false, with either lookup. With a
    record that has both arrays the file without [tagexps] is loaded with
    the answer false and one tagger. *)
Theorem loadFile_unchecked_read_without_tagexps :
  StdMap.get unchecked_no_tagexps_doc "tagexps" = None
  ∧ (loadFile (getRule_instance catalog0) "unchecked_no_tagexps.toml" false world0).1
    = Undefined
  ∧ (loadFile (getRule_shared registry0) "unchecked_no_tagexps.toml" false world0).1
    = Undefined
  ∧ (loadFile (getRule_instance catalog0) "no_tagexps.toml" false world0).1 = Ok false
  ∧ length (tagger_list (loadFile (getRule_instance catalog0) "no_tagexps.toml" false
                                  world0).2) = 1.
Proof. vm_compute. done. Qed.

(** Whether a load changes the rule object registered under a name depends
    on the lookup: with the one that hands out the registered objects the
    object at address 1 ends with the parameters of the record; with the one
    that makes rule objects it keeps its own, and the tagger points to a
    new object. *)
Example registered_rule_after_load :
  params <$> (rules world0 !! 1) = Some [("check_attacker", Toml.Boolean false)]
  ∧ (loadFile (getRule_shared registry0) "one_tagger.toml" false world0).1 = Ok true
  ∧ params <$> (rules (loadFile (getRule_shared registry0) "one_tagger.toml" false
                                world0).2 !! 1)
    = Some [("check_attacker", Toml.Boolean true)]
  ∧ (loadFile (getRule_instance catalog0) "one_tagger.toml" false world0).1 = Ok true
  ∧ params <$> (rules (loadFile (getRule_instance catalog0) "one_tagger.toml" false
                                world0).2 !! 1)
    = Some [("check_attacker", Toml.Boolean false)]
  ∧ rule <$> tagger_list (loadFile (getRule_instance catalog0) "one_tagger.toml" false
                                   world0).2 = [3].
Proof. vm_compute. done. Qed.
End LoadSamples.

(* ================================================================== *)
(** * Further properties of the loading and saving code *)

Section LoadingTheorems.
Import Filter Loading.

Variable getRule : string -> St RuleStore RulePtr.

(** X1: a load of a path that holds no parseable document returns false and
    logs one warning; it has emptied both lists before it looked at the file
    unless [append] is set, and touches neither the rule objects nor the
    files. *)
Theorem loadFile_unparsable_clears (w : World) (dir : string) (append : bool) :
  (forall tbl, files w !! dir <> Some (TomlFile tbl)) ->
  exists w',
    loadFile getRule dir append w = (Ok false, w')
    ∧ tagger_list w' = (if append then tagger_list w else [])
    ∧ tagexp_list w' = (if append then tagexp_list w else [])
    ∧ rules w' = rules w
    ∧ files w' = files w
    ∧ log w' = log w ++ [warn ("Failed to parse filter file " ++ dir ++ ".")].
Proof.
  intros Hno.
  set (w0 := if append then w
             else set_tagexp_list (fun _ => []) (set_tagger_list (fun _ => []) w)).
  exists (set_log (fun l => l ++ [warn ("Failed to parse filter file " ++ dir ++ ".")]) w0).
  split.
  - unfold loadFile.
    rewrite (bind_ok _ _ w tt w0) by (unfold w0; destruct append; reflexivity).
    rewrite (bind_ok _ _ w0 None w0); [reflexivity|].
    unfold parse_file, gets.
    replace (files w0) with (files w) by (unfold w0; destruct append; done).
    destruct (files w !! dir) as [[tbl|]|] eqn:E; [|done|done].
    exfalso. by apply (Hno tbl).
  - unfold w0. destruct append; done.
Qed.

(** X2: saving to a path that cannot be opened returns false, logs the
    attempt and the failure, and writes nothing. *)
Theorem saveFile_unwritable_writes_nothing (w : World) (dir : string) :
  dir ∈ unwritable w ->
  exists w',
    saveFile dir w = (Ok false, w')
    ∧ files w' = files w
    ∧ tagger_list w' = tagger_list w
    ∧ tagexp_list w' = tagexp_list w
    ∧ rules w' = rules w
    ∧ log w' = log w ++ [info ("Saving filter file " ++ dir ++ ".");
                         error ("Failed to write at " ++ dir ++ "!")].
Proof.
  intros Hdir.
  set (wl := set_log (fun l => l ++ [info ("Saving filter file " ++ dir ++ ".")]) w).
  exists (set_log (fun l => l ++ [error ("Failed to write at " ++ dir ++ "!")]) wl).
  split.
  - unfold saveFile.
    rewrite (bind_ok _ _ w tt wl) by reflexivity.
    rewrite (bind_ok _ _ wl true wl)
      by (unfold gets; cbn; by rewrite bool_decide_eq_true_2).
    reflexivity.
  - cbn. rewrite <- app_assoc. done.
Qed.

(** X3: what a load of a parseable file returns and leaves behind, when no
    record runs into the unchecked read of [ban_tags] or an undefined
    lookup, each record being read over the rule objects the records before
    it left: the answer is true exactly when every element of [taggers]
    gives a tagger and [tagexps] is a table of arrays; the tagger list gains
    the taggers of the records that parse and the expansion list one
    expansion per array-valued entry, each in the order of the file, after
    the old lists if [append] is set; every record that throws and a missing
    [tagexps] field are reported in a warning. *)
Theorem loadFile_result_exact (w : World) (dir : string) (append : bool) (tbl : Toml.table) :
  files w !! dir = Some (TomlFile tbl) ->
  Forall (fun r => r <> Undefined) (run_entries getRule (taggers_of tbl) (rules w)).1 ->
  exists b w',
    loadFile getRule dir append w = (Ok b, w')
    ∧ (b = true
       <-> Forall (fun r => exists tagger, r = Ok tagger)
                  (run_entries getRule (taggers_of tbl) (rules w)).1
           ∧ exists entries, Toml.as_table (StdMap.get tbl "tagexps") = Some entries
                             ∧ Forall (fun e => exists a, e.2 = Toml.Array a) entries)
    ∧ tagger_list w'
      = (if append then tagger_list w else [])
        ++ omap ok_value (run_entries getRule (taggers_of tbl) (rules w)).1
    ∧ tagexp_list w'
      = (if append then tagexp_list w else []) ++ omap tagexp_of_entry (tagexps_of tbl)
    ∧ files w' = files w
    ∧ rules w' = (run_entries getRule (taggers_of tbl) (rules w)).2
    ∧ (forall what, Throw what ∈ (run_entries getRule (taggers_of tbl) (rules w)).1 ->
         warn ("Failed to parse one of the taggers. Error: " ++ what) ∈ log w')
    ∧ (Toml.as_table (StdMap.get tbl "tagexps") = None ->
       warn ("Required " ++ dquote ++ "tagexps" ++ dquote ++ " field unfulfilled. Skipped.")
       ∈ log w').
Proof.
  intros Hfile Hdef.
  destruct (loadFile_exact getRule w dir append tbl Hfile Hdef)
    as (w' & Hl & Hr & Htl & Hte & Hf & _ & Hlog & _ & Hlogx).
  eexists _, w'. split; [exact Hl|]. split; [split; [intros Hb; split|]|].
  - apply andb_true_iff in Hb as [Hb _].
    apply Forall_forall. intros r Hin. rewrite forallb_forall in Hb.
    apply list_elem_of_In in Hin. specialize (Hb r Hin).
    destruct r; try discriminate. eauto.
  - apply andb_true_iff in Hb as [_ Hb]. unfold tagexps_ok in Hb.
    destruct (Toml.as_table (StdMap.get tbl "tagexps")) as [entries|]; [|discriminate].
    exists entries. split; [done|]. apply Forall_forall. intros [k v] He.
    rewrite forallb_forall in Hb. apply list_elem_of_In in He. specialize (Hb _ He).
    apply bool_decide_eq_true in Hb as [e Hb]. unfold tagexp_of_entry in Hb.
    destruct v; simpl in Hb; try discriminate. eauto.
  - intros [Ht (entries & He & Ha)]. apply andb_true_iff. split.
    + apply forallb_forall. intros r Hin. apply list_elem_of_In in Hin.
      rewrite Forall_forall in Ht. destruct (Ht r Hin) as [tagger ->]. done.
    + unfold tagexps_ok. rewrite He. apply forallb_forall. intros [k v] Hin.
      apply list_elem_of_In in Hin. rewrite Forall_forall in Ha.
      destruct (Ha _ Hin) as [a Hv]. simpl in Hv. subst v.
      apply bool_decide_eq_true. unfold tagexp_of_entry. simpl. eauto.
  - repeat split; try done.
    intros what Hin. apply Hlog. apply list_elem_of_omap.
    exists (Throw what). split; [done|reflexivity].
Qed.

(** X4: a missing [taggers] field alone does not fail a load: when the
    field is absent or no array and [tagexps] is a table of arrays, the load
    warns about the field, adds no tagger and returns true. *)
Theorem loadFile_without_taggers_succeeds
    (w : World) (dir : string) (append : bool) (tbl : Toml.table) :
  files w !! dir = Some (TomlFile tbl) ->
  Toml.as_array (StdMap.get tbl "taggers") = None ->
  tagexps_ok tbl = true ->
  exists w',
    loadFile getRule dir append w = (Ok true, w')
    ∧ tagger_list w' = (if append then tagger_list w else [])
    ∧ tagexp_list w'
      = (if append then tagexp_list w else []) ++ omap tagexp_of_entry (tagexps_of tbl)
    ∧ warn ("Required " ++ dquote ++ "taggers" ++ dquote ++ " field unfulfilled. Skipped.")
      ∈ log w'.
Proof.
  intros Hfile Hnone Hok.
  assert (Ht : taggers_of tbl = []) by (unfold taggers_of; by rewrite Hnone).
  destruct (loadFile_exact getRule w dir append tbl Hfile)
    as (w' & Hl & _ & Htl & Hte & _ & _ & _ & Hlog & _);
    [rewrite Ht; constructor|].
  rewrite Ht, Hok in Hl. rewrite Ht, app_nil_r in Htl.
  exists w'. repeat split; try done. by apply Hlog.
Qed.

Lemma fields_present_true (tbl : Toml.table) :
  Tagger_fields_present tbl = true ->
  is_Some (Toml.as_string (StdMap.get tbl "rule"))
  ∧ is_Some (Toml.as_table (StdMap.get tbl "params"))
  ∧ is_Some (Toml.as_string (StdMap.get tbl "comment"))
  ∧ is_Some (Toml.as_boolean (StdMap.get tbl "enable_true"))
  ∧ is_Some (Toml.as_boolean (StdMap.get tbl "enable_false"))
  ∧ is_Some (Toml.as_table (StdMap.get tbl "true_tags"))
  ∧ is_Some (Toml.as_table (StdMap.get tbl "false_tags")).
Proof.
  unfold Tagger_fields_present. rewrite !andb_true_iff, !bool_decide_eq_true. tauto.
Qed.

Lemma TaggerOutput_fromToml_defined (view : option Toml.node) (t : Toml.table) :
  Toml.as_table view = Some t -> tags_table_checked view = true ->
  TaggerOutput_fromToml t <> Undefined.
Proof.
  intros Ht Hc. unfold tags_table_checked in Hc. rewrite Ht in Hc.
  unfold TaggerOutput_fromToml.
  destruct (Toml.as_array (StdMap.get t "req_tags")) as [req|]; [|done].
  rewrite bool_decide_eq_true_2 in Hc by eauto. cbn in Hc.
  apply bool_decide_eq_true in Hc as [ban Hban]. rewrite Hban. done.
Qed.

Lemma entry_result_defined (v : Toml.node) (h : RuleStore) :
  (forall name h0, (getRule name h0).1 <> Undefined
                   ∧ forall ptr, (getRule name h0).1 = Ok ptr ->
                                 is_Some ((getRule name h0).2 !! ptr)) ->
  ban_tags_checked v = true -> (entry_result getRule v h).1 <> Undefined.
Proof.
  intros Hlookup Hc. destruct v as [| | | | |tbl]; try done.
  cbn [entry_result]. rewrite Tagger_fromToml_unfold.
  destruct (Tagger_fields_present tbl) eqn:Hg; [|done]. cbn [negb].
  destruct (fields_present_true tbl Hg)
    as ([name Hn] & [p Hp] & [c Hcm] & [et Het] & [ef Hef] & [tt Htt] & [ft Hft]).
  rewrite Hn, Hp. destruct (Hlookup name h) as [Hdef Hlive].
  destruct (getRule name h) as [[ptr|e|] h1]; cbn [fst snd] in *; [|done|done].
  destruct (Hlive ptr eq_refl) as [r ->].
  destruct (negb (Rules.checkParamsValidity r p)); [done|]. cbn [fst].
  unfold Tagger_fromToml_tail. rewrite Htt, Hft, Het, Hef, Hcm.
  cbn [ban_tags_checked] in Hc. apply andb_true_iff in Hc as [Hc1 Hc2].
  pose proof (TaggerOutput_fromToml_defined _ tt Htt Hc1) as H1.
  pose proof (TaggerOutput_fromToml_defined _ ft Hft Hc2) as H2.
  cbn. destruct (TaggerOutput_fromToml tt); [|done|done].
  cbn. destruct (TaggerOutput_fromToml ft); done.
Qed.

Lemma run_entries_defined (arr : list Toml.node) :
  (forall name h0, (getRule name h0).1 <> Undefined
                   ∧ forall ptr, (getRule name h0).1 = Ok ptr ->
                                 is_Some ((getRule name h0).2 !! ptr)) ->
  Forall (fun v => ban_tags_checked v = true) arr ->
  forall h, Forall (fun r => r <> Undefined) (run_entries getRule arr h).1.
Proof.
  intros Hlookup. induction 1 as [|v arr Hv _ IH]; intros h; cbn [run_entries].
  - constructor.
  - pose proof (entry_result_defined v h Hlookup Hv) as Hd.
    destruct (entry_result getRule v h) as [r h1]. specialize (IH h1).
    destruct (run_entries getRule arr h1) as [rs h2]. by constructor.
Qed.


(** X6: the table written for a pair of tag sets has the two keys
    [ban_tags] and [req_tags], and reading it gives the pair back. *)
Theorem TaggerOutput_toToml_fromToml (o : TaggerOutput) :
  StdMap.keys (TaggerOutput_toToml o) = ["ban_tags"; "req_tags"]
  ∧ TaggerOutput_fromToml (TaggerOutput_toToml o) = Ok o.
Proof. split; [reflexivity|apply TaggerOutput_roundtrip]. Qed.

Lemma result_bind_Ok {A B : Type} (m : result A) (k : A -> result B) (b : B) :
  m ≫= k = Ok b -> exists a, m = Ok a ∧ k a = Ok b.
Proof. destruct m as [a| |]; cbn; [eauto|done|done]. Qed.

Lemma deref_Ok {A : Type} (p : option A) (a : A) : deref p = Ok a -> p = Some a.
Proof. destruct p; cbn; congruence. Qed.

(** The fields that [Tagger::fromToml] reads after the rule is set up. *)
Lemma Tagger_fromToml_tail_Ok (tbl : Toml.table) (ptr : RulePtr) (tagger : Tagger) :
  Tagger_fromToml_tail tbl ptr = Ok tagger ->
  rule tagger = ptr
  ∧ Toml.as_string (StdMap.get tbl "comment") = Some (comment tagger)
  ∧ Toml.as_boolean (StdMap.get tbl "enable_true") = Some (enable_true tagger)
  ∧ Toml.as_boolean (StdMap.get tbl "enable_false") = Some (enable_false tagger)
  ∧ (exists tt, Toml.as_table (StdMap.get tbl "true_tags") = Some tt
                ∧ TaggerOutput_fromToml tt = Ok (true_tags tagger))
  ∧ (exists ft, Toml.as_table (StdMap.get tbl "false_tags") = Some ft
                ∧ TaggerOutput_fromToml ft = Ok (false_tags tagger)).
Proof.
  unfold Tagger_fromToml_tail. intros H.
  apply result_bind_Ok in H as (tt_tbl & Htt%deref_Ok & H).
  apply result_bind_Ok in H as (tt & Htt' & H).
  apply result_bind_Ok in H as (ft_tbl & Hft%deref_Ok & H).
  apply result_bind_Ok in H as (ft & Hft' & H).
  apply result_bind_Ok in H as (et & Het%deref_Ok & H).
  apply result_bind_Ok in H as (ef & Hef%deref_Ok & H).
  apply result_bind_Ok in H as (c & Hc%deref_Ok & H).
  injection H as <-. cbn. repeat split; try done; eauto.
Qed.

(** X24: a tagger that [Tagger::fromToml] builds has the comment, the flags
    and the tag sets of its record and points to the rule object that the
    lookup answered for the name of the record; that object has passed the
    check of the record's parameters and now holds them, with its class
    unchanged. Whatever the outcome, the rule objects are as they were, or
    as the lookup left them, or as the lookup left them but for the
    parameters of the object it answered: no other rule object is
    written. *)
Theorem Tagger_fromToml_builds_from_record (tbl : Toml.table) (h : RuleStore) :
  (forall tagger h',
     Tagger_fromToml getRule tbl h = (Ok tagger, h') ->
     exists name p h1 r,
       Toml.as_string (StdMap.get tbl "rule") = Some name
       ∧ Toml.as_table (StdMap.get tbl "params") = Some p
       ∧ getRule name h = (Ok (rule tagger), h1)
       ∧ h1 !! rule tagger = Some r
       ∧ Rules.checkParamsValidity r p = true
       ∧ h' = <[ rule tagger := mkRule (cls r) p ]> h1
       ∧ Toml.as_string (StdMap.get tbl "comment") = Some (comment tagger)
       ∧ Toml.as_boolean (StdMap.get tbl "enable_true") = Some (enable_true tagger)
       ∧ Toml.as_boolean (StdMap.get tbl "enable_false") = Some (enable_false tagger)
       ∧ (exists tt, Toml.as_table (StdMap.get tbl "true_tags") = Some tt
                     ∧ TaggerOutput_fromToml tt = Ok (true_tags tagger))
       ∧ (exists ft, Toml.as_table (StdMap.get tbl "false_tags") = Some ft
                     ∧ TaggerOutput_fromToml ft = Ok (false_tags tagger)))
  ∧ (forall res h',
       Tagger_fromToml getRule tbl h = (res, h') ->
       h' = h
       ∨ exists name,
           Toml.as_string (StdMap.get tbl "rule") = Some name
           ∧ (h' = (getRule name h).2
              ∨ exists ptr r p,
                  (getRule name h).1 = Ok ptr
                  ∧ (getRule name h).2 !! ptr = Some r
                  ∧ Toml.as_table (StdMap.get tbl "params") = Some p
                  ∧ h' = <[ ptr := mkRule (cls r) p ]> (getRule name h).2)).
Proof.
  rewrite Tagger_fromToml_unfold. split.
  - intros tagger h' H.
    destruct (negb (Tagger_fields_present tbl)); [discriminate|].
    destruct (Toml.as_string (StdMap.get tbl "rule")) as [name|]; [|discriminate].
    destruct (getRule name h) as [[ptr|e|] h1] eqn:Hget; [|discriminate|discriminate].
    destruct (h1 !! ptr) as [r|] eqn:Hr; [|discriminate].
    destruct (Toml.as_table (StdMap.get tbl "params")) as [p|]; [|discriminate].
    destruct (Rules.checkParamsValidity r p) eqn:Hv; [|discriminate]. cbn [negb] in H.
    injection H as Htail <-.
    apply Tagger_fromToml_tail_Ok in Htail as (-> & Hc & Het & Hef & Htt & Hft).
    exists name, p, h1, r. repeat split; done.
  - intros res h' H.
    destruct (negb (Tagger_fields_present tbl)); [injection H as _ <-; by left|].
    destruct (Toml.as_string (StdMap.get tbl "rule")) as [name|];
      [|injection H as _ <-; by left].
    right. exists name. split; [done|].
    destruct (getRule name h) as [[ptr|e|] h1] eqn:Hget; cbn [fst snd];
      [|injection H as _ <-; by left|injection H as _ <-; by left].
    destruct (h1 !! ptr) as [r|] eqn:Hr; [|injection H as _ <-; by left].
    destruct (Toml.as_table (StdMap.get tbl "params")) as [p|];
      [|injection H as _ <-; by left].
    destruct (negb (Rules.checkParamsValidity r p)); [injection H as _ <-; by left|].
    injection H as _ <-. right. by exists ptr, r, p.
Qed.
End LoadingTheorems.

Section LoadingSamples.
Import Filter Loading Samples MoreSamples.

Lemma getRule_instance_defined (catalog : gmap string RuleClass) (name : string)
    (h : RuleStore) :
  (getRule_instance catalog name h).1 <> Undefined
  ∧ forall ptr, (getRule_instance catalog name h).1 = Ok ptr ->
                is_Some ((getRule_instance catalog name h).2 !! ptr).
Proof.
  unfold getRule_instance. destruct (catalog !! name) as [c|]; cbn; split; try done.
  intros ptr [= <-]. rewrite lookup_insert_eq. eauto.
Qed.

Lemma loadFile_unparsable_clears_witness :
  exists w',
    loadFile (getRule_instance catalog0) "garbage.toml" false world1 = (Ok false, w')
    ∧ tagger_list w' = []
    ∧ tagexp_list w' = []
    ∧ rules w' = rules world1
    ∧ files w' = files world1
    ∧ log w' = log world1 ++ [warn ("Failed to parse filter file " ++ "garbage.toml" ++ ".")].
Proof.
  apply (loadFile_unparsable_clears (getRule_instance catalog0) world1 "garbage.toml" false).
  intros tbl. vm_compute. discriminate.
Defined.

Lemma saveFile_unwritable_writes_nothing_witness :
  exists w',
    saveFile "readonly.toml" world1 = (Ok false, w')
    ∧ files w' = files world1
    ∧ tagger_list w' = tagger_list world1
    ∧ tagexp_list w' = tagexp_list world1
    ∧ rules w' = rules world1
    ∧ log w' = log world1 ++ [info ("Saving filter file " ++ "readonly.toml" ++ ".");
                              error ("Failed to write at " ++ "readonly.toml" ++ "!")].
Proof.
  apply (saveFile_unwritable_writes_nothing world1 "readonly.toml").
  vm_compute. reflexivity.
Defined.

Lemma loadFile_result_exact_witness :
  exists b w',
    loadFile (getRule_instance catalog0) "mixed.toml" true world1 = (Ok b, w')
    ∧ (b = true
       <-> Forall (fun r => exists tagger, r = Ok tagger)
                  (run_entries (getRule_instance catalog0) (taggers_of mixed_doc)
                               (rules world1)).1
           ∧ exists entries,
               Toml.as_table (StdMap.get mixed_doc "tagexps") = Some entries
               ∧ Forall (fun e => exists a, e.2 = Toml.Array a) entries)
    ∧ tagger_list w'
      = tagger_list world1
        ++ omap ok_value (run_entries (getRule_instance catalog0) (taggers_of mixed_doc)
                                      (rules world1)).1
    ∧ tagexp_list w'
      = tagexp_list world1 ++ omap tagexp_of_entry (tagexps_of mixed_doc)
    ∧ files w' = files world1
    ∧ rules w' = (run_entries (getRule_instance catalog0) (taggers_of mixed_doc)
                              (rules world1)).2
    ∧ (forall what,
         Throw what ∈ (run_entries (getRule_instance catalog0) (taggers_of mixed_doc)
                                   (rules world1)).1 ->
         warn ("Failed to parse one of the taggers. Error: " ++ what) ∈ log w')
    ∧ (Toml.as_table (StdMap.get mixed_doc "tagexps") = None ->
       warn ("Required " ++ dquote ++ "tagexps" ++ dquote ++ " field unfulfilled. Skipped.")
       ∈ log w').
Proof.
  apply (loadFile_result_exact (getRule_instance catalog0) world1 "mixed.toml" true mixed_doc).
  - vm_compute. reflexivity.
  - vm_compute. repeat constructor; discriminate.
Defined.

(** The same load, worked out: the first and the last record give taggers
    with rule objects of their own, the two records between them are
    reported and left out, and the answer is false. *)
Example loadFile_mixed_result :
  let w' := (loadFile (getRule_instance catalog0) "mixed.toml" true world1).2 in
  (loadFile (getRule_instance catalog0) "mixed.toml" true world1).1 = Ok false
  ∧ (fun t => (comment t, params <$> rules w' !! rule t)) <$> tagger_list w'
    = [("kept", Some [("check_attacker", Toml.Boolean false)]);
       ("sample", Some [("check_attacker", Toml.Boolean true)]);
       ("sample", Some [("check_attacker", Toml.Boolean false)])]
  ∧ log w'
    = [info "Parsing filter file mixed.toml";
       warn "Failed to parse one of the taggers. Error: No rule type Nope.";
       warn "Failed to parse one of the taggers. Error: Wrong parameters for rule type Flag."].
Proof. vm_compute. done. Qed.

Lemma loadFile_without_taggers_succeeds_witness :
  exists w',
    loadFile (getRule_instance catalog0) "only_tagexps.toml" true world1 = (Ok true, w')
    ∧ tagger_list w' = tagger_list world1
    ∧ tagexp_list w'
      = tagexp_list world1 ++ omap tagexp_of_entry (tagexps_of only_tagexps_doc)
    ∧ warn ("Required " ++ dquote ++ "taggers" ++ dquote ++ " field unfulfilled. Skipped.")
      ∈ log w'.
Proof.
  apply (loadFile_without_taggers_succeeds (getRule_instance catalog0) world1
           "only_tagexps.toml" true only_tagexps_doc).
  - vm_compute. reflexivity.
  - vm_compute. reflexivity.
  - vm_compute. reflexivity.
Defined.

End LoadingSamples.

(* ================================================================== *)
(** * Further properties of the selection and of the string sets *)

Section SelectionTheorems.
Import StrSetOps Select.

Variable random_device : nat -> Z.
Variable unif : nat -> nat -> Z -> nat * Z.

(** X7: when one tag is both required and banned, no entry can pass: the
    selection returns null for every pool and every expansion list, and it
    returns before the engine is seeded or drawn from. *)
Theorem pickEntry_required_and_banned_tag
    (anim_dict : AnimDict) (tag_result : TaggerOutput)
    (tagexp_list : list TagExpansion) (r : Rng) (tag : string) :
  tag ∈ required_tags tag_result -> tag ∈ banned_tags tag_result ->
  pickEntry random_device unif anim_dict tag_result tagexp_list r = (None, r).
Proof.
  intros Hreq Hban. unfold pickEntry.
  destruct (filter_anims tagexp_list tag_result anim_dict) as [|p l] eqn:E; [reflexivity|].
  exfalso. assert (Hp : p ∈ filter_anims tagexp_list tag_result anim_dict) by (rewrite E; left).
  apply elem_of_filter_anims in Hp as (_ & Hsub & Hdis).
  exact (Hdis tag Hban (Hsub tag Hreq)).
Qed.

(** X8: when exactly one entry of the pool passes the filter, a selection
    with a distribution that keeps its range returns that entry. *)
Theorem pickEntry_single_candidate
    (anim_dict : AnimDict) (tag_result : TaggerOutput)
    (tagexp_list : list TagExpansion) (r : Rng) (p : AnimPtr) :
  unif_in_range unif ->
  filter_anims tagexp_list tag_result anim_dict = [p] ->
  (pickEntry random_device unif anim_dict tag_result tagexp_list r).1 = Some p.
Proof.
  intros Hu Hone. unfold pickEntry. rewrite Hone, pick_from_cons. cbn [fst length].
  destruct (Hu 0 0 (random_device (device_reads r))) as [_ Hi]; [lia|].
  assert ((unif 0 0 (random_device (device_reads r))).1 = 0) as -> by lia.
  reflexivity.
Qed.

Lemma filter_sublist {A : Type} (f g : A -> bool) (l : list A) :
  (forall x, g x = true -> f x = true) ->
  List.filter g l `sublist_of` List.filter f l ∧ List.filter f l `sublist_of` l.
Proof.
  intros Himp. induction l as [|x l [IH1 IH2]]; simpl; [split; constructor|].
  destruct (g x) eqn:Eg.
  - rewrite (Himp x Eg). split; by constructor.
  - destruct (f x); split; try done; by constructor.
Qed.

(** X9: the candidates are entries of the dictionary in the order of the
    dictionary, and requiring or banning more tags can only remove
    candidates, never add or reorder them. *)
Theorem filter_anims_sublist_and_antitone
    (anim_dict : AnimDict) (tagexp_list : list TagExpansion) (t t' : TaggerOutput) :
  filter_anims tagexp_list t anim_dict `sublist_of` anim_dict
  ∧ (required_tags t ⊆ required_tags t' -> banned_tags t ⊆ banned_tags t' ->
     filter_anims tagexp_list t' anim_dict `sublist_of` filter_anims tagexp_list t anim_dict).
Proof.
  rewrite !filter_anims_eq. split.
  - eapply filter_sublist. intros x H; exact H.
  - intros Hr Hb. eapply filter_sublist. intros x. rewrite !admits_spec.
    intros [H1 H2]. split; set_solver.
Qed.

(** X10: expanding with two lists one after the other joins what each list
    gives; the order of the expansions does not matter; and when no
    expansion starts from a tag of the entry the tags are unchanged. *)
Theorem exp_tags_of_compose (l1 l2 : list TagExpansion) (A : StrSet) :
  exp_tags_of (l1 ++ l2) A = exp_tags_of l1 A ∪ exp_tags_of l2 A
  ∧ (l1 ≡ₚ l2 -> exp_tags_of l1 A = exp_tags_of l2 A)
  ∧ ((forall e, e ∈ l1 -> from e ∉ A) -> exp_tags_of l1 A = A).
Proof.
  assert (Hm : forall (l : list TagExpansion) (t : string),
             t ∈ exp_tags_of l A
             <-> t ∈ A ∨ exists e, e ∈ l ∧ from e ∈ A ∧ t ∈ to e).
  { intros l t. rewrite exp_tags_of_eq, elem_of_union, elem_of_union_list.
    split; (intros [Ht|Ht]; [by left|right]).
    - destruct Ht as (X & HX & Ht). apply list_elem_of_fmap in HX as (e & -> & He).
      apply list_elem_of_filter in He as [Hf He]. eauto.
    - destruct Ht as (e & He & Hf & Ht). exists (to e). split; [|exact Ht].
      apply list_elem_of_fmap. exists e. split; [reflexivity|].
      apply list_elem_of_filter. auto. }
  split; [|split].
  - apply set_eq. intros t. rewrite elem_of_union, !Hm. split.
    + intros [?|(e & He & ?)]; [tauto|]. apply elem_of_app in He as [?|?]; eauto 8.
    + intros [[?|(e & He & ?)]|[?|(e & He & ?)]]; try tauto;
        right; exists e; (split; [apply elem_of_app; tauto|done]).
  - intros Hp. apply set_eq. intros t. rewrite !Hm.
    split; (intros [?|(e & He & ?)]; [tauto|right; exists e; split; [|done]]).
    + by rewrite <- Hp.
    + by rewrite Hp.
  - intros Hno. apply set_eq. intros t. rewrite Hm. split; [|tauto].
    intros [?|(e & He & Hf & _)]; [done|]. exfalso. exact (Hno e He Hf).
Qed.
End SelectionTheorems.

Lemma pickEntry_required_and_banned_tag_witness :
  Select.pickEntry (fun n => Z.of_nat n) Select.minstd_draw
    [("e1", mkAnimEntry {[ "a" ]}); ("e2", mkAnimEntry {[ "b" ]})]
    (mkTaggerOutput {[ "a" ]} {[ "a"; "b" ]}) [] Select.rng_init
  = (None, Select.rng_init).
Proof.
  apply (pickEntry_required_and_banned_tag (fun n => Z.of_nat n) Select.minstd_draw
           [("e1", mkAnimEntry {[ "a" ]}); ("e2", mkAnimEntry {[ "b" ]})]
           (mkTaggerOutput {[ "a" ]} {[ "a"; "b" ]}) [] Select.rng_init "a").
  - vm_compute. reflexivity.
  - vm_compute. reflexivity.
Defined.

Lemma pickEntry_single_candidate_witness :
  (Select.pickEntry (fun n => Z.of_nat n) Select.minstd_draw
     [("e1", mkAnimEntry {[ "a" ]}); ("e2", mkAnimEntry {[ "b" ]})]
     (mkTaggerOutput ∅ {[ "a" ]}) [] Select.rng_init).1
  = Some ("e2", mkAnimEntry {[ "b" ]}).
Proof.
  apply (pickEntry_single_candidate (fun n => Z.of_nat n) Select.minstd_draw).
  - exact minstd_draw_in_range.
  - vm_compute. reflexivity.
Defined.

Section StrSetTheorems.
Import StrSetOps.

Lemma StrSet_fromToml_elem (arr : Toml.array) (s : string) :
  s ∈ StrSetToml.fromToml arr <-> Toml.String s ∈ arr.
Proof.
  unfold StrSetToml.fromToml.
  assert (G : forall (l : Toml.array) (acc : StrSet),
             s ∈ foldl (fun set v => match v with Toml.String s => {[ s ]} ∪ set | _ => set end)
                       acc l
             <-> s ∈ acc ∨ Toml.String s ∈ l).
  { induction l as [|v l IH]; intros acc; simpl.
    - split; [tauto|]. intros [?|H]; [done|inversion H].
    - rewrite IH, elem_of_cons. destruct v; try (split; [tauto|]; intros [?|[?|?]];
        [tauto|discriminate|tauto]).
      rewrite elem_of_union, elem_of_singleton. split.
      + intros [[->|?]|?]; tauto.
      + intros [?|[[= ->]|?]]; tauto. }
  rewrite G. split; [|tauto]. intros [H|?]; [|done]. set_solver.
Qed.

(** X11: a toml array is read as the set of its strings, whatever else it
    holds and however often; the array written for a set lists each element
    once, and reading it gives the set back. *)
Theorem StrSet_toml_array_roundtrip :
  (forall (arr : Toml.array) (s : string),
     s ∈ StrSetToml.fromToml arr <-> Toml.String s ∈ arr)
  ∧ (forall set : StrSet,
       StrSetToml.fromToml (StrSetToml.toToml set) = set
       ∧ NoDup (StrSetToml.toToml set)
       ∧ length (StrSetToml.toToml set) = size set).
Proof.
  split; [exact StrSet_fromToml_elem|]. intros set. split; [apply StrSet_roundtrip|].
  rewrite StrSet_toToml_eq. split.
  - apply NoDup_fmap_2; [intros x y [= ->]; done|apply NoDup_elements].
  - by rewrite length_fmap.
Qed.

(** X12: merging one set into another gives their union: the result holds
    exactly the elements of either, merging a set into itself or merging the
    empty set changes nothing, and the order of two merges does not matter. *)
Theorem mergeStrSet_is_union (a b c : StrSet) :
  (forall x, x ∈ merge a b <-> x ∈ a ∨ x ∈ b)
  ∧ merge a a = a
  ∧ merge a ∅ = a
  ∧ merge (merge a b) c = merge (merge a c) b.
Proof.
  rewrite !merge_union. repeat split; set_solver.
Qed.
End StrSetTheorems.

(* ================================================================== *)
(** * Properties of the other functions of re.cpp *)

Section NearestFacts.
Import Re ReMore.

Lemma Qltb_false (x y : Q) : Qltb x y = false <-> (y <= x)%Q.
Proof.
  unfold Qltb. rewrite negb_false_iff. apply Qle_bool_iff.
Qed.

(** The loop either keeps its [min_actor], and then nobody listed is nearer
    than [min_dist], or ends with a listed actor that is nearer than
    [min_dist] and than whom nobody listed is nearer. *)
Lemma nearest_scan_spec (g : Game) (origin : Actor) (handles : list ActorHandle) :
  forall (d : Q) (m : option Actor),
    (nearest_scan g origin handles d m = m
     ∧ forall b, handle_to b ∈ handles -> b <> origin -> (d <= distance g b origin)%Q)
    ∨ (exists a, nearest_scan g origin handles d m = Some a
         ∧ handle_to a ∈ handles ∧ a <> origin
         ∧ (distance g a origin < d)%Q
         ∧ forall b, handle_to b ∈ handles -> b <> origin ->
             (distance g a origin <= distance g b origin)%Q).
Proof.
  induction handles as [|h rest IH]; intros d m.
  - left. split; [reflexivity|]. intros b Hb. inversion Hb.
  - destruct h as [| |actor]; cbn [nearest_scan].
    + destruct (IH d m) as [[Hr Hall]|(a & Hr & Ha & Hne & Hd & Hall)].
      * left. split; [exact Hr|]. intros b Hb. apply elem_of_cons in Hb as [?|Hb]; [done|auto].
      * right. exists a. repeat split; try done; [by right|].
        intros b Hb. apply elem_of_cons in Hb as [?|Hb]; [done|auto].
    + destruct (IH d m) as [[Hr Hall]|(a & Hr & Ha & Hne & Hd & Hall)].
      * left. split; [exact Hr|]. intros b Hb. apply elem_of_cons in Hb as [?|Hb]; [done|auto].
      * right. exists a. repeat split; try done; [by right|].
        intros b Hb. apply elem_of_cons in Hb as [?|Hb]; [done|auto].
    + destruct (Nat.eqb actor origin) eqn:Eo.
      { apply Nat.eqb_eq in Eo. subst actor.
        destruct (IH d m) as [[Hr Hall]|(a & Hr & Ha & Hne & Hd & Hall)].
        - left. split; [exact Hr|]. intros b Hb Hbo.
          apply elem_of_cons in Hb as [[= ->]|Hb]; [done|auto].
        - right. exists a. repeat split; try done; [by right|].
          intros b Hb Hbo. apply elem_of_cons in Hb as [[= ->]|Hb]; [done|auto]. }
      apply Nat.eqb_neq in Eo.
      destruct (Qltb (distance g actor origin) d) eqn:Elt.
      * apply Qltb_lt in Elt. right.
        destruct (IH (distance g actor origin) (Some actor))
          as [[Hr Hall]|(a & Hr & Ha & Hne & Hd & Hall)].
        -- exists actor. repeat split; try done; [by left|].
           intros b Hb Hbo. apply elem_of_cons in Hb as [[= ->]|Hb]; [apply Qle_refl|auto].
        -- exists a. repeat split; try done; [by right|by eapply Qlt_trans|].
           intros b Hb Hbo. apply elem_of_cons in Hb as [[= ->]|Hb]; [|auto].
           by apply Qlt_le_weak.
      * apply Qltb_false in Elt.
        destruct (IH d m) as [[Hr Hall]|(a & Hr & Ha & Hne & Hd & Hall)].
        -- left. split; [exact Hr|]. intros b Hb Hbo.
           apply elem_of_cons in Hb as [[= ->]|Hb]; [done|auto].
        -- right. exists a. repeat split; try done; [by right|].
           intros b Hb Hbo. apply elem_of_cons in Hb as [[= ->]|Hb]; [|auto].
           apply Qlt_le_weak. by eapply Qlt_le_trans.
Qed.

(** X16: the actor that [getNearestNPC] returns is behind one of the
    handles, is not the origin, is nearer to the origin than the range, and
    no other listed actor is nearer to the origin. *)
Theorem getNearestNPC_is_nearest (g : Game) (origin : Actor) (max_range : Q) (a : Actor) :
  getNearestNPC g origin max_range = Some a ->
  a <> origin
  ∧ (distance g a origin < max_range)%Q
  ∧ exists pl, process_lists g = Some pl
      ∧ numberHighActors pl <> 0
      ∧ handle_to a ∈ highActorHandles pl
      ∧ forall b, handle_to b ∈ highActorHandles pl -> b <> origin ->
          (distance g a origin <= distance g b origin)%Q.
Proof.
  unfold getNearestNPC. destruct (process_lists g) as [pl|]; [|discriminate].
  destruct (Nat.eqb (numberHighActors pl) 0) eqn:En; [discriminate|].
  apply Nat.eqb_neq in En. intros Hres.
  destruct (nearest_scan_spec g origin (highActorHandles pl) max_range None)
    as [[Hr _]|(a' & Hr & Ha & Hne & Hd & Hall)]; [congruence|].
  rewrite Hr in Hres. injection Hres as <-. repeat split; try done.
  exists pl. done.
Qed.

(** X17: [getNearestNPC] returns null exactly when there are no process
    lists, or no high actor is counted, or no listed actor other than the
    origin is nearer to it than the range. *)
Theorem getNearestNPC_none_iff (g : Game) (origin : Actor) (max_range : Q) :
  getNearestNPC g origin max_range = None
  <-> process_lists g = None
      ∨ exists pl, process_lists g = Some pl
          ∧ (numberHighActors pl = 0
             ∨ forall b, handle_to b ∈ highActorHandles pl -> b <> origin ->
                 (max_range <= distance g b origin)%Q).
Proof.
  unfold getNearestNPC. destruct (process_lists g) as [pl|]; [|split; [by left|done]].
  destruct (Nat.eqb (numberHighActors pl) 0) eqn:En.
  { apply Nat.eqb_eq in En. split; [|done]. intros _. right. exists pl. split; [done|by left]. }
  apply Nat.eqb_neq in En.
  destruct (nearest_scan_spec g origin (highActorHandles pl) max_range None)
    as [[Hr Hall]|(a & Hr & Ha & Hne & Hd & Hall)]; rewrite Hr.
  - split; [|done]. intros _. right. exists pl. split; [done|by right].
  - split; [discriminate|]. intros [?|(pl' & [= <-] & [?|Hfar])]; try done.
    exfalso. exact (Qlt_not_le _ _ Hd (Hfar a Ha Hne)).
Qed.
End NearestFacts.

Lemma getNearestNPC_is_nearest_witness :
  2 <> 1
  ∧ (Re.distance Samples.two_hostiles 2%nat 1%nat < 10)%Q
  ∧ exists pl, Re.process_lists Samples.two_hostiles = Some pl
      ∧ Re.numberHighActors pl <> 0
      ∧ Re.handle_to 2 ∈ Re.highActorHandles pl
      ∧ forall b, Re.handle_to b ∈ Re.highActorHandles pl -> b <> 1 ->
          (Re.distance Samples.two_hostiles 2%nat 1%nat <= Re.distance Samples.two_hostiles b 1%nat)%Q.
Proof.
  apply (getNearestNPC_is_nearest Samples.two_hostiles 1 10 2).
  vm_compute. reflexivity.
Defined.

Section EquipmentFacts.
Import ReMore.

(** X18: the tag of a hand is one of fourteen tags; those of one-handed
    weapons, staffs, spells and fists carry the suffix of the hand asked
    for; "shield" is only answered for the left hand of an actor with a
    shield; and an empty hand gives the shield or the fist. *)
Theorem getEquippedTag_range (e : Equipped) (is_left : bool) :
  getEquippedTag e is_left
    ∈ (if is_left
       then ["dagger_l"; "sword_l"; "axe_l"; "mace_l"; "staff_l"; "bow"; "crossbow";
             "sword2h"; "axe2h"; "mace2h"; "torch"; "spell_l"; "shield"; "fist_l"]
       else ["dagger_r"; "sword_r"; "axe_r"; "mace_r"; "staff_r"; "bow"; "crossbow";
             "sword2h"; "axe2h"; "mace2h"; "torch"; "spell_r"; "fist_r"])
  ∧ (getEquippedTag e is_left = "shield" -> is_left = true ∧ shield e = true)
  ∧ (GetEquippedObject e is_left = None ->
     getEquippedTag e is_left
     = if is_left && shield e then "shield" else if is_left then "fist_l" else "fist_r").
Proof.
  unfold getEquippedTag, shield_or_fist.
  destruct (GetEquippedObject e is_left) as [[type hk| | |]|];
    destruct is_left; destruct (shield e);
    try destruct type;
    try destruct (hk "WeapTypeBattleaxe"); try destruct (hk "WeapTypeWarhammer");
    cbn; (split; [apply list_elem_of_In; cbn; tauto|]);
    (split; [intros H; first [discriminate H | done] | intros H; first [discriminate H | done]]).
Qed.

(** X19: [canDecap] looks at the left hand, and at the right hand only when
    the left hand is empty. It is true exactly when that item is a dagger,
    one-handed sword, axe or mace and the actor has the one-handed perk, or a
    two-handed sword or axe and the actor has the two-handed perk; so
    anything that is no weapon in the left hand makes it false whatever the
    right hand holds. *)
Theorem canDecap_iff (e : Equipped) :
  (canDecap e = true
   <-> exists type hk,
         (left_hand e = Some (Weapon type hk)
          ∨ (left_hand e = None ∧ right_hand e = Some (Weapon type hk)))
         ∧ ((type ∈ [kOneHandDagger; kOneHandSword; kOneHandAxe; kOneHandMace]
             ∧ has_decap_1h_perk e = true)
            ∨ (type ∈ [kTwoHandSword; kTwoHandAxe] ∧ has_decap_2h_perk e = true)))
  ∧ (forall item, left_hand e = Some item ->
       (forall type hk, item <> Weapon type hk) -> canDecap e = false).
Proof.
  unfold canDecap, GetEquippedObject. split.
  - split.
    + destruct (left_hand e) as [[type hk| | |]|] eqn:El; try discriminate.
      * intros H. exists type, hk. split; [by left|].
        destruct type; try discriminate; [left|left|left|left|right|right];
          (split; [apply list_elem_of_In; cbn; tauto|exact H]).
      * destruct (right_hand e) as [[type hk| | |]|] eqn:Er; try discriminate.
        intros H. exists type, hk. split; [by right|].
        destruct type; try discriminate; [left|left|left|left|right|right];
          (split; [apply list_elem_of_In; cbn; tauto|exact H]).
    + intros (type & hk & [Hl|[Hl Hr]] & Hperk); rewrite Hl; try rewrite Hr;
        destruct Hperk as [[Hin Hp]|[Hin Hp]]; apply list_elem_of_In in Hin; cbn in Hin;
        repeat (destruct Hin as [<-|Hin]; [exact Hp|]); destruct Hin.
  - intros item Hl Hnw. rewrite Hl. destruct item; try done. exfalso. by eapply Hnw.
Qed.
End EquipmentFacts.

Section SkeletonFacts.
Import ReMore.

(** [stricmp] depends on its first argument only up to the case of letters. *)
Lemma stricmp_lower (a : string) :
  forall a' b, lower a = lower a' -> stricmp a b = stricmp a' b.
Proof.
  induction a as [|c a IH]; intros [|c' a'] b Hl; cbn in Hl; try discriminate.
  - reflexivity.
  - injection Hl as Hc Hl. destruct b as [|d b]; cbn [stricmp]; rewrite Hc; [reflexivity|].
    destruct (Ascii.eqb (tolower c') (tolower d)); [by apply IH|reflexivity].
Qed.

Lemma first_match_lower (skel skel' : string) (rows : list (string * string)) :
  lower skel = lower skel' -> first_match skel rows = first_match skel' rows.
Proof.
  intros Hl. induction rows as [|[path race] rows IH]; cbn [first_match]; [reflexivity|].
  rewrite (stricmp_lower skel skel' path Hl), IH. reflexivity.
Qed.

Lemma first_match_found (skel : string) (rows : list (string * string)) :
  first_match skel rows = EmptyString
  ∨ exists path, (path, first_match skel rows) ∈ rows ∧ stricmp skel path = 0%Z.
Proof.
  induction rows as [|[path race] rows IH]; cbn [first_match]; [by left|].
  destruct (Z.eqb (stricmp skel path) 0) eqn:E.
  - right. exists path. apply Z.eqb_eq in E. split; [by left|done].
  - destruct IH as [?|(p & Hp & ?)]; [by left|]. right. exists p. split; [by right|done].
Qed.

Lemma skeleton_table_rows :
  Forall (fun row => getSkeletonRace row.1 = row.2) skeleton_table.
Proof.
  apply Forall_forall. intros row Hrow.
  assert (H : forallb (fun row => String.eqb (getSkeletonRace row.1) row.2) skeleton_table = true)
    by (vm_compute; reflexivity).
  rewrite forallb_forall in H. apply String.eqb_eq, H. by apply list_elem_of_In.
Qed.

(** X20: every spelling of a path of the table that differs from it only
    in the case of letters gives the name listed for that path, so no row
    of the table is hidden by an earlier one; and a name that is not empty
    always comes from a row whose path matches. *)
Theorem getSkeletonRace_ignores_case :
  (forall path race skel,
     (path, race) ∈ skeleton_table -> lower skel = lower path ->
     getSkeletonRace skel = race)
  ∧ (forall skel,
       getSkeletonRace skel = EmptyString
       ∨ exists path, (path, getSkeletonRace skel) ∈ skeleton_table
                      ∧ stricmp skel path = 0%Z).
Proof.
  split.
  - intros path race skel Hrow Hl. unfold getSkeletonRace.
    rewrite (first_match_lower skel path _ Hl).
    pose proof skeleton_table_rows as Hall. rewrite Forall_forall in Hall.
    exact (Hall (path, race) Hrow).
  - intros skel. apply first_match_found.
Qed.

(** The male and the female human skeleton in odd spellings, and a path
    that is not in the table. *)
Example getSkeletonRace_samples :
  getSkeletonRace "ACTORS\CHARACTER\CHARACTER ASSETS\SKELETON.NIF" = "human"
  ∧ getSkeletonRace "actors\character\character assets female\skeleton_female.nif" = "human"
  ∧ getSkeletonRace "Actors\Character\skeleton.nif" = EmptyString.
Proof. vm_compute. done. Qed.
End SkeletonFacts.

(* ================================================================== *)
(** * Properties of the rules of rule.h and of the expansion editor *)

Section RuleEvalFacts.
Import RuleH RuleEval.

Variable h : Host.
Variable check_elsewhere : RuleType -> ParamsClass -> Actor -> Actor -> bool.
Variable getRule : gmap string RuleType.

Lemma from_json_defaults (r : RuleType) :
  from_json (params_class r) (getDefaultParams r) = Some (params_class r).
Proof. destruct r; reflexivity. Qed.

(** X13: parameters written as json convert back to themselves: for every
    rule and every value of its parameter struct, the generated [from_json]
    gives the struct back from what [to_json] wrote, so [checkParams]
    accepts it; this holds for the default parameters of every rule. *)
Theorem params_to_json_from_json (r : RuleType) (obj : ParamsClass) :
  (fun '(name, v) => (name, type_of v)) <$> obj
    = (fun '(name, v) => (name, type_of v)) <$> params_class r ->
  from_json (params_class r) (to_json obj) = Some obj
  ∧ checkParams r (to_json obj) = true
  ∧ checkParams r (getDefaultParams r) = true.
Proof.
  intros Hshape.
  assert (H : from_json (params_class r) (to_json obj) = Some obj).
  { destruct r; cbn in Hshape;
      repeat (let n := fresh "n" in let v := fresh "v" in
              destruct obj as [|[n v] obj]; [discriminate Hshape|];
              injection Hshape as -> Hty Hshape; destruct v; try discriminate Hty;
              clear Hty);
      destruct obj; try discriminate Hshape; reflexivity. }
  split; [exact H|]. split.
  - unfold checkParams. by rewrite H.
  - unfold checkParams. by rewrite from_json_defaults.
Qed.

(** X14: a [RuleInfo] built for a type of the rule map is enabled, holds
    the default parameters of the rule, and its [check] throws nothing and
    answers what the rule answers on its defaults; built for any other type
    it is disabled, holds null, and its [check] throws [out_of_range]. *)
Theorem RuleInfo_of_registered_type (type : string) (attacker victim : Actor) :
  (forall r, getRule !! type = Some r ->
     enabled (RuleInfo_of getRule type) = true
     ∧ params (RuleInfo_of getRule type) = getDefaultParams r
     ∧ RuleInfo_check h check_elsewhere getRule (RuleInfo_of getRule type) attacker victim
       = inr (check h check_elsewhere r (params_class r) attacker victim))
  ∧ (getRule !! type = None ->
     enabled (RuleInfo_of getRule type) = false
     ∧ params (RuleInfo_of getRule type) = Json.null
     ∧ RuleInfo_check h check_elsewhere getRule (RuleInfo_of getRule type) attacker victim
       = inl out_of_range).
Proof.
  unfold RuleInfo_of, RuleInfo_check. split.
  - intros r Hr. rewrite Hr. cbn. rewrite Hr. unfold check_json.
    by rewrite from_json_defaults.
  - intros Hr. rewrite Hr. cbn. by rewrite Hr.
Qed.

(** X15: for the four rules about one actor that are defined in rule.h,
    [check_attacker] alone chooses whom the rule looks at: with it set the
    answer does not depend on the victim, without it not on the attacker,
    and setting it gives what the rule without it gives with the two
    actors exchanged. *)
Theorem single_actor_rules_choose_by_check_attacker
    (r : RuleType) (b : bool) (a v x : Actor) :
  r ∈ [PlayableRule; BleedoutRule; RagdollRule; EssentialRule] ->
  let blob c := Json.object [("check_attacker", Json.boolean c)] in
  check_json h check_elsewhere r (blob true) a v
    = check_json h check_elsewhere r (blob true) a x
  ∧ check_json h check_elsewhere r (blob false) a v
    = check_json h check_elsewhere r (blob false) x v
  ∧ check_json h check_elsewhere r (blob b) a v
    = check_json h check_elsewhere r (blob (negb b)) v a
  ∧ is_Some (check_json h check_elsewhere r (blob b) a v).
Proof.
  intros Hin blob. apply list_elem_of_In in Hin. cbn in Hin.
  destruct Hin as [<-|[<-|[<-|[<-|[]]]]]; destruct b; cbn; eauto.
Qed.
End RuleEvalFacts.

Lemma params_to_json_from_json_witness :
  RuleH.from_json (RuleH.params_class RuleH.AngleRule)
    (RuleH.to_json [("angle_min", RuleH.float_v (-90)%Q); ("angle_max", RuleH.float_v 90%Q)])
  = Some [("angle_min", RuleH.float_v (-90)%Q); ("angle_max", RuleH.float_v 90%Q)]
  ∧ RuleH.checkParams RuleH.AngleRule
      (RuleH.to_json [("angle_min", RuleH.float_v (-90)%Q); ("angle_max", RuleH.float_v 90%Q)])
    = true
  ∧ RuleH.checkParams RuleH.AngleRule (RuleH.getDefaultParams RuleH.AngleRule) = true.
Proof.
  apply (params_to_json_from_json RuleH.AngleRule
           [("angle_min", RuleH.float_v (-90)%Q); ("angle_max", RuleH.float_v 90%Q)]).
  reflexivity.
Defined.

Lemma single_actor_rules_choose_by_check_attacker_witness :
  let blob c := Json.object [("check_attacker", Json.boolean c)] in
  RuleEval.check_json RuleSamples.host0 (fun _ _ _ _ => false) RuleH.PlayableRule (blob true) 1 2
    = RuleEval.check_json RuleSamples.host0 (fun _ _ _ _ => false) RuleH.PlayableRule
        (blob true) 1 3
  ∧ RuleEval.check_json RuleSamples.host0 (fun _ _ _ _ => false) RuleH.PlayableRule
      (blob false) 1 2
    = RuleEval.check_json RuleSamples.host0 (fun _ _ _ _ => false) RuleH.PlayableRule
        (blob false) 3 2
  ∧ RuleEval.check_json RuleSamples.host0 (fun _ _ _ _ => false) RuleH.PlayableRule
      (blob true) 1 2
    = RuleEval.check_json RuleSamples.host0 (fun _ _ _ _ => false) RuleH.PlayableRule
        (blob (negb true)) 2 1
  ∧ is_Some (RuleEval.check_json RuleSamples.host0 (fun _ _ _ _ => false) RuleH.PlayableRule
               (blob true) 1 2).
Proof.
  apply (single_actor_rules_choose_by_check_attacker RuleSamples.host0 (fun _ _ _ _ => false)
           RuleH.PlayableRule true 1 2 3).
  left.
Defined.

Section MenuFacts.
Import Menu.

Lemma empty_false (s : string) : empty s = false <-> s <> EmptyString.
Proof. destruct s; cbn; split; congruence. Qed.

(** X21: renaming an expansion to a tag that is not empty and not yet a key
    moves its set to the new key: the new key has the set, the old key is
    gone, every other expansion is as before, and the number of expansions
    is unchanged. *)
Theorem apply_swap_renames (swap_from swap_to : string) (tagexp_list : TagExpMap)
    (to_ : StrSet) :
  empty swap_from = false -> empty swap_to = false ->
  tagexp_list !! swap_from = Some to_ ->
  tagexp_list !! swap_to = None ->
  exists renamed,
    apply_swap swap_from swap_to tagexp_list = Ok renamed
    ∧ renamed !! swap_to = Some to_
    ∧ renamed !! swap_from = None
    ∧ (forall k, k <> swap_from -> k <> swap_to -> renamed !! k = tagexp_list !! k)
    ∧ size renamed = size tagexp_list.
Proof.
  intros Hf Ht Hfrom Hto. unfold apply_swap. rewrite Hf, Ht, Hfrom, Hto.
  rewrite bool_decide_eq_false_2 by (intros [? ?]; discriminate). cbn.
  assert (Hne : swap_from <> swap_to) by congruence.
  eexists. split; [reflexivity|]. repeat split.
  - apply lookup_insert_eq.
  - rewrite lookup_insert_ne by congruence. apply lookup_delete_eq.
  - intros k Hk1 Hk2. rewrite lookup_insert_ne by congruence. by apply lookup_delete_ne.
  - rewrite map_size_insert_None by (rewrite lookup_delete_ne; congruence).
    rewrite map_size_delete_Some by eauto.
    assert (size tagexp_list <> 0); [|lia].
    intros Hz. apply map_size_empty_inv in Hz. rewrite Hz in Hfrom. by rewrite lookup_empty in Hfrom.
Qed.

(** X22: the editor never overwrites an expansion. Entering a tag that is
    already a key changes nothing, nor does an edit of the key that is the
    empty string; entering the empty string deletes the edited expansion;
    whatever is entered, every expansion other than the edited one keeps its
    set; the empty string never becomes a key; the edit is defined whenever
    the edited key is in the map; and "Add" leaves every expansion as it is
    and has no further effect when pressed again. *)
Theorem tagexp_edits_never_overwrite (swap_from swap_to : string) (tagexp_list : TagExpMap) :
  (is_Some (tagexp_list !! swap_to) -> apply_swap swap_from swap_to tagexp_list = Ok tagexp_list)
  ∧ apply_swap EmptyString swap_to tagexp_list = Ok tagexp_list
  ∧ (empty swap_from = false -> tagexp_list !! EmptyString = None ->
     apply_swap swap_from EmptyString tagexp_list = Ok (delete swap_from tagexp_list))
  ∧ (forall edited k to_,
       apply_swap swap_from swap_to tagexp_list = Ok edited ->
       k <> swap_from -> tagexp_list !! k = Some to_ -> edited !! k = Some to_)
  ∧ (forall edited,
       apply_swap swap_from swap_to tagexp_list = Ok edited ->
       tagexp_list !! EmptyString = None -> edited !! EmptyString = None)
  ∧ (is_Some (tagexp_list !! swap_from) ->
     apply_swap swap_from swap_to tagexp_list <> Undefined)
  ∧ (forall k to_, tagexp_list !! k = Some to_ -> add_tagexp tagexp_list !! k = Some to_)
  ∧ add_tagexp (add_tagexp tagexp_list) = add_tagexp tagexp_list.
Proof.
  unfold apply_swap. repeat split.
  - intros Hin. rewrite bool_decide_eq_true_2 by done. cbn. by rewrite andb_false_r.
  - intros Hf Hnone. rewrite Hf, Hnone.
    rewrite bool_decide_eq_false_2 by (intros [? ?]; discriminate). done.
  - intros edited k to_ Hres Hk Hlook.
    destruct (negb (empty swap_from) && negb (bool_decide (is_Some (tagexp_list !! swap_to))))
      eqn:Eg; [|by injection Hres as <-].
    apply andb_true_iff in Eg as [_ Eg]. apply negb_true_iff, bool_decide_eq_false in Eg.
    assert (Hkt : k <> swap_to) by (intros ->; apply Eg; eauto).
    destruct (empty swap_to).
    + injection Hres as <-. by rewrite lookup_delete_ne.
    + destruct (tagexp_list !! swap_from) as [node|]; [|discriminate].
      injection Hres as <-. rewrite lookup_insert_ne by congruence.
      by rewrite lookup_delete_ne.
  - intros edited Hres Hnone.
    destruct (negb (empty swap_from) && negb (bool_decide (is_Some (tagexp_list !! swap_to))))
      eqn:Eg; [|by injection Hres as <-].
    destruct (empty swap_to) eqn:Et.
    + injection Hres as <-. destruct (decide (swap_from = EmptyString)) as [->|Hne].
      * apply lookup_delete_eq.
      * by rewrite lookup_delete_ne.
    + destruct (tagexp_list !! swap_from) as [node|] eqn:Hfrom; [|discriminate].
      injection Hres as <-. apply empty_false in Et.
      rewrite lookup_insert_ne by congruence.
      destruct (decide (swap_from = EmptyString)) as [->|Hne]; [congruence|].
      by rewrite lookup_delete_ne.
  - intros [node Hfrom]. rewrite Hfrom.
    destruct (negb (empty swap_from) && negb (bool_decide (is_Some (tagexp_list !! swap_to))));
      [|done].
    destruct (empty swap_to); done.
  - intros k to_ Hk. unfold add_tagexp. destruct (tagexp_list !! "from") eqn:E; [done|].
    rewrite lookup_insert_ne by congruence. done.
  - unfold add_tagexp. destruct (tagexp_list !! "from") eqn:E.
    + by rewrite E.
    + by rewrite lookup_insert_eq.
Qed.
End MenuFacts.

Lemma apply_swap_renames_witness :
  exists renamed,
    Menu.apply_swap "sneak" "stealth" RuleSamples.tagexps0 = Ok renamed
    ∧ renamed !! "stealth" = Some {[ "back"; "quiet" ]}
    ∧ renamed !! "sneak" = None
    ∧ (forall k, k <> "sneak" -> k <> "stealth" -> renamed !! k = RuleSamples.tagexps0 !! k)
    ∧ size renamed = size RuleSamples.tagexps0.
Proof.
  apply (apply_swap_renames "sneak" "stealth" RuleSamples.tagexps0 {[ "back"; "quiet" ]}).
  - reflexivity.
  - reflexivity.
  - vm_compute. reflexivity.
  - vm_compute. reflexivity.
Defined.

Section SavingTheorems.
Import Filter.

Lemma compare_Lt_trans (a b c : string) :
  String.compare a b = Lt -> String.compare b c = Lt -> String.compare a c = Lt.
Proof.
  intros H1 H2.
  apply OrderedTypeEx.String_as_OT.cmp_lt.
  eapply OrderedTypeEx.String_as_OT.lt_trans;
    apply OrderedTypeEx.String_as_OT.cmp_lt; eassumption.
Qed.

Lemma compare_Lt_ne (a b : string) : String.compare a b = Lt -> a <> b.
Proof.
  intros H ->. pose proof (String.compare_antisym b b) as A.
  rewrite H in A. discriminate.
Qed.

Lemma compare_Gt_Lt (a b : string) :
  String.compare a b = Gt -> String.compare b a = Lt.
Proof. intros H. rewrite String.compare_antisym, H. reflexivity. Qed.

Lemma elem_of_emplace {V : Type} (k : string) (v : V) (m : list (string * V)) x :
  x ∈ StdMap.emplace k v m -> x = (k, v) ∨ x ∈ m.
Proof.
  induction m as [|[k0 v0] m IH]; cbn.
  - intros ->%list_elem_of_singleton. by left.
  - destruct (String.compare k k0).
    + by right.
    + intros [->|H]%elem_of_cons; [by left | by right].
    + intros [->|H]%elem_of_cons; [right; left|].
      destruct (IH H) as [->|H']; [by left | right; by right].
Qed.

Lemma emplace_sorted {V : Type} (k : string) (v : V) (m : list (string * V)) :
  StronglySorted (fun a b => String.compare a.1 b.1 = Lt) m ->
  StronglySorted (fun a b => String.compare a.1 b.1 = Lt) (StdMap.emplace k v m).
Proof.
  induction 1 as [|[k0 v0] m Hs IH Hall]; cbn.
  - repeat constructor.
  - destruct (String.compare k k0) eqn:C.
    + by constructor.
    + constructor; [by constructor|]. constructor; [exact C|].
      eapply Forall_impl; [exact Hall|]. intros [k1 v1] H1. cbn in *.
      by eapply compare_Lt_trans.
    + constructor; [exact IH|]. apply Forall_forall. intros x Hx.
      destruct (elem_of_emplace _ _ _ _ Hx) as [->|Hm].
      * cbn. by apply compare_Gt_Lt.
      * rewrite Forall_forall in Hall. by apply Hall.
Qed.

Lemma get_above {V : Type} (k : string) (m : list (string * V)) :
  Forall (fun b => String.compare k b.1 = Lt) m -> StdMap.get m k = None.
Proof.
  induction 1 as [|[k0 v0] m H0 _ IH]; cbn; [done|].
  cbn in H0. apply compare_Lt_ne in H0.
  by rewrite (proj2 (String.eqb_neq k k0) H0).
Qed.

Lemma get_emplace_eq {V : Type} (k : string) (v : V) (m : list (string * V)) :
  StronglySorted (fun a b => String.compare a.1 b.1 = Lt) m ->
  StdMap.get (StdMap.emplace k v m) k
  = match StdMap.get m k with Some x => Some x | None => Some v end.
Proof.
  induction 1 as [|[k0 v0] m Hs IH Hall]; cbn.
  - by rewrite String.eqb_refl.
  - destruct (String.compare k k0) eqn:C.
    + apply String.compare_eq_iff in C as <-. cbn. by rewrite String.eqb_refl.
    + cbn. rewrite String.eqb_refl.
      rewrite (proj2 (String.eqb_neq k k0) (compare_Lt_ne _ _ C)).
      rewrite get_above; [done|].
      eapply Forall_impl; [exact Hall|]. intros [k1 v1] H1. cbn in *.
      by eapply compare_Lt_trans.
    + cbn.
      assert (k <> k0) as Hne
        by (intros ->; apply compare_Gt_Lt in C; by apply compare_Lt_ne in C).
      rewrite (proj2 (String.eqb_neq k k0) Hne). exact IH.
Qed.

Lemma get_emplace_ne {V : Type} (k k' : string) (v : V) (m : list (string * V)) :
  k' <> k -> StdMap.get (StdMap.emplace k v m) k' = StdMap.get m k'.
Proof.
  intros Hne. induction m as [|[k0 v0] m IH]; cbn.
  - by rewrite (proj2 (String.eqb_neq k' k) Hne).
  - destruct (String.compare k k0) eqn:C; cbn.
    + done.
    + by rewrite (proj2 (String.eqb_neq k' k) Hne).
    + by rewrite IH.
Qed.

(** The table that the loop of [saveFile] over the expansions builds: under
    a key, the first expansion from that tag, unless the key was there. *)
Lemma save_tagexps_get (exps : list TagExpansion) (k : string) :
  forall acc : Toml.table,
  StronglySorted (fun a b => String.compare a.1 b.1 = Lt) acc ->
  StdMap.get
    (foldl (fun tbl tagexp =>
              StdMap.emplace (from tagexp)
                             (Toml.Array (StrSetToml.toToml (to tagexp))) tbl)
           acc exps) k
  = match StdMap.get acc k with
    | Some x => Some x
    | None => (fun e => Toml.Array (StrSetToml.toToml (to e)))
                <$> find (fun e => String.eqb k (from e)) exps
    end.
Proof.
  induction exps as [|e exps IH]; intros acc Hs; cbn [foldl find].
  - by destruct (StdMap.get acc k).
  - rewrite IH by by apply emplace_sorted.
    destruct (String.eqb k (from e)) eqn:E.
    + apply String.eqb_eq in E as ->. rewrite get_emplace_eq by done.
      by destruct (StdMap.get acc (from e)).
    + apply String.eqb_neq in E. by rewrite get_emplace_ne.
Qed.

(** X23: a save of a pipeline whose taggers point to rule objects, to a path
    that can be written, returns true, leaves the pipeline, the rule objects
    and every other file as they are, and puts at the path a document whose
    [taggers] array has one table per tagger, the one [Tagger::toToml]
    builds from the tagger and its rule object, and whose [tagexps] table
    holds, under each tag, the array of the first expansion from that tag in
    the list: a later expansion from the same tag is not written. *)
Theorem saveFile_writes_first_expansion_per_tag (w : World) (dir : string) :
  dir ∉ unwritable w ->
  Forall (fun t => is_Some (rules w !! rule t)) (tagger_list w) ->
  exists w' doc taggers_arr tagexp_tbl,
    saveFile dir w = (Ok true, w')
    ∧ tagger_list w' = tagger_list w
    ∧ tagexp_list w' = tagexp_list w
    ∧ rules w' = rules w
    ∧ files w' !! dir = Some (TomlFile doc)
    ∧ (forall other, other <> dir -> files w' !! other = files w !! other)
    ∧ Toml.as_array (StdMap.get doc "taggers") = Some taggers_arr
    ∧ length taggers_arr = length (tagger_list w)
    ∧ Toml.as_table (StdMap.get doc "tagexps") = Some tagexp_tbl
    ∧ (forall k, StdMap.get tagexp_tbl k
                 = (fun e => Toml.Array (StrSetToml.toToml (to e)))
                     <$> find (fun e => String.eqb k (from e)) (tagexp_list w))
    ∧ Forall2 (fun t v => exists r, rules w !! rule t = Some r
                                    ∧ v = Toml.Table (Tagger_table r t))
              (tagger_list w) taggers_arr.
Proof.
  intros Hdir Hts.
  set (wl := set_log (fun l => l ++ [info ("Saving filter file " ++ dir ++ ".")]) w).
  destruct (save_taggers_loop wl (tagger_list w) Hts []) as (arr & Hsave & Hf2).
  set (T := foldl (fun tbl tagexp =>
                     StdMap.emplace (from tagexp)
                                    (Toml.Array (StrSetToml.toToml (to tagexp))) tbl)
                  [] (tagexp_list w)).
  set (doc := StdMap.of_list [("taggers", Toml.Array arr); ("tagexps", Toml.Table T)]).
  exists (set_files (fun fs => <[ dir := TomlFile doc ]> fs) wl), doc, arr, T.
  split.
  { unfold saveFile.
    rewrite (bind_ok _ _ w tt wl) by reflexivity.
    rewrite (bind_ok _ _ wl false wl)
      by (unfold gets; cbn; by rewrite bool_decide_eq_false_2).
    rewrite (bind_ok _ _ wl (tagger_list w) wl) by reflexivity.
    rewrite (bind_ok _ _ wl arr wl) by exact Hsave.
    rewrite (bind_ok _ _ wl (tagexp_list w) wl) by reflexivity.
    rewrite (bind_ok _ _ wl tt _) by reflexivity.
    reflexivity. }
  repeat split; try done.
  - cbn. apply lookup_insert_eq.
  - intros other Hne. cbn. by rewrite lookup_insert_ne.
  - symmetry. eapply Forall2_length. exact Hf2.
  - intros k. unfold T. rewrite save_tagexps_get by constructor. done.
Qed.
End SavingTheorems.

Section SavingSamples.
Import Filter Samples.

Lemma saveFile_writes_first_expansion_per_tag_witness :
  exists w' doc taggers_arr tagexp_tbl,
    saveFile "pipeline.toml" world_pipeline = (Ok true, w')
    ∧ tagger_list w' = tagger_list world_pipeline
    ∧ tagexp_list w' = tagexp_list world_pipeline
    ∧ rules w' = rules world_pipeline
    ∧ files w' !! "pipeline.toml" = Some (TomlFile doc)
    ∧ (forall other, other <> "pipeline.toml" ->
                     files w' !! other = files world_pipeline !! other)
    ∧ Toml.as_array (StdMap.get doc "taggers") = Some taggers_arr
    ∧ length taggers_arr = length (tagger_list world_pipeline)
    ∧ Toml.as_table (StdMap.get doc "tagexps") = Some tagexp_tbl
    ∧ (forall k, StdMap.get tagexp_tbl k
                 = (fun e => Toml.Array (StrSetToml.toToml (to e)))
                     <$> find (fun e => String.eqb k (from e))
                              (tagexp_list world_pipeline))
    ∧ Forall2 (fun t v => exists r, rules world_pipeline !! rule t = Some r
                                    ∧ v = Toml.Table (Tagger_table r t))
              (tagger_list world_pipeline) taggers_arr.
Proof.
  apply (saveFile_writes_first_expansion_per_tag world_pipeline "pipeline.toml").
  - apply not_elem_of_empty.
  - repeat constructor; vm_compute; eauto.
Defined.
End SavingSamples.
